(** * vkbottle: message rules, user long-polling and the bot labeler

    A shallow embedding of
    - [vkbottle/dispatch/rules/user.py]   (module [UserRules]),
    - [vkbottle/polling/user_polling.py]  (module [UserPolling]),
    - [vkbottle/framework/bot/labeler/default.py] (module [BotLabeler]),
    followed by the properties established about them.

    Conventions.  Python [int] is unbounded, so integers are [Z] and
    lengths, indices and edit distances are [nat].  A Python [str] is a
    [string]; its characters are compared one by one, which is all the
    code does with them.  A function that can raise returns [option]
    (where the only exception is the one named in its comment) or a
    [result], which keeps the exception.  A [dict] is a [gmap]. *)

From Stdlib Require Import ZArith Lia Ascii.
From stdpp Require Import base option list strings gmap.

Local Open Scope Z_scope.

(* ===================================================================== *)
(** * Part I.  The embedding                                             *)
(* ===================================================================== *)

(** ** Exceptions and results *)

(** The exceptions the modelled code can meet.  [Raised] stands for any
    exception that comes out of a collaborator (network failure,
    malformed response, ...), named by what it reports. *)
Inductive exn : Type :=
| KeyError (key : string)
| NotImplementedError
| Raised (what : string).

#[global] Instance exn_eq_dec : EqDecision exn.
Proof. solve_decision. Defined.

(** A call either returns or raises. *)
Inductive result (A : Type) : Type :=
| Ok (a : A)
| Raise (e : exn).
Arguments Ok {A} a.
Arguments Raise {A} e.

#[global] Instance result_ret : MRet result := λ A a, Ok a.
#[global] Instance result_bind : MBind result := λ A B f r,
  match r with
  | Ok a => f a
  | Raise e => Raise e
  end.

Definition raises {A} (r : result A) : Prop := ∃ e, r = Raise e.

(** ** Python values that the rules compare with [==] and [in] *)

Module Py.

(** The two scalar kinds that reach [StickerRule]: [int] and [bool].
    [bool] is a subclass of [int] in Python: [True == 1], [False == 0]. *)
Inductive scalar : Type :=
| PInt (z : Z)
| PBool (b : bool).

Definition int_of (v : scalar) : Z :=
  match v with
  | PInt z => z
  | PBool true => 1
  | PBool false => 0
  end.

(** [x == y] on ints and bools. *)
Definition eqb (x y : scalar) : bool := bool_decide (int_of x = int_of y).

(** [x in l]: some element of [l] is [==] to [x]. *)
Definition contains (x : scalar) (l : list scalar) : bool :=
  existsb (eqb x) l.

(** Truthiness of a list: non-empty. *)
Definition truthy_list {A} (l : list A) : bool :=
  match l with [] => false | _ :: _ => true end.

(** Truthiness of an [Optional[list]]: neither [None] nor empty. *)
Definition truthy_opt_list {A} (l : option (list A)) : bool :=
  match l with Some (_ :: _) => true | _ => false end.

(** Truthiness of an [Optional[int]] as [dict.get] returns it. *)
Definition truthy_opt_int (v : option Z) : bool :=
  match v with Some z => negb (z =? 0) | None => false end.

(** [for x in xs: s = body(s, x)] where the body may raise. *)
Fixpoint for_each {S X : Type} (body : S → X → option S)
    (xs : list X) (s : S) : option S :=
  match xs with
  | [] => Some s
  | x :: rest => s' ← body s x; for_each body rest s'
  end.

(** [l[j] = v]; raises [IndexError] (here [None]) out of range. *)
Definition set_item {A} (l : list A) (j : nat) (v : A) : option (list A) :=
  if decide (j < length l)%nat then Some (<[j := v]> l) else None.

(** [range(lo, hi)] with [lo <= hi] written as start and count. *)
Definition range (lo hi : nat) : list nat := seq lo (hi - lo).

End Py.

(** ** [vkbottle/dispatch/rules/user.py] *)

Module UserRules.

(** The parts of [MessageMin] that the rules below read. *)

Record Sticker := { sticker_id : Z }.

(** [attachment.type.value] and [attachment.sticker]. *)
Record Attachment := {
  type_value : string;
  sticker : option Sticker;
}.

(** A member of a [BaseStateGroup] enumeration: the enumeration it
    belongs to and its value.  Two members are the same state iff both
    agree. *)
Record StateValue := { state_group_name : string; state_member : Z }.

#[global] Instance StateValue_eq_dec : EqDecision StateValue.
Proof. solve_decision. Defined.

(** [x == y] on states.  [BaseStateGroup] (of the package
    [vkbottle_types]) is an [IntEnum]: its members are ints and are
    compared as ints, whatever enumeration they belong to. *)
Definition state_eqb (x y : StateValue) : bool :=
  bool_decide (state_member x = state_member y).

(** [x in l] on states: some element of [l] is [==] to [x]. *)
Definition state_in (x : StateValue) (l : list StateValue) : bool :=
  existsb (state_eqb x) l.

Record StatePeer := { sp_peer_id : Z; state : StateValue }.

Record Message := {
  peer_id : Z;
  from_id : Z;
  text : string;
  attachments : option (list Attachment);
  state_peer : option StatePeer;
}.

Definition with_attachments (atts : option (list Attachment)) (m : Message)
    : Message :=
  {| peer_id := peer_id m; from_id := from_id m; text := text m;
     attachments := atts; state_peer := state_peer m |}.


(** *** StickerRule *)

Module StickerRule.

(** [sticker_ids: Union[List[int], int, bool]] *)
Inductive arg : Type :=
| ArgList (ids : list Py.scalar)
| ArgInt (id : Z)
| ArgBool (b : bool).

Record t := { sticker_ids : list Py.scalar }.

(** [__init__]: anything that is not a list is wrapped in one. *)
Definition init (a : arg) : t :=
  match a with
  | ArgList ids => {| sticker_ids := ids |}
  | ArgInt id => {| sticker_ids := [Py.PInt id] |}
  | ArgBool b => {| sticker_ids := [Py.PBool b] |}
  end.

Definition check (self : t) (message : Message) : bool :=
  match attachments message with
  | Some (first :: _) =>
      match sticker first with
      | Some st =>
          negb (Py.truthy_list (sticker_ids self))
          || Py.contains (Py.PInt (sticker_id st)) (sticker_ids self)
      | None => false
      end
  | _ => false
  end.

End StickerRule.

(** *** AttachmentTypeRule *)

Module AttachmentTypeRule.

(** [attachment_types: Union[List[str], str]] *)
Inductive arg : Type :=
| ArgList (types : list string)
| ArgStr (type : string).

Record t := { attachment_types : list string }.

Definition init (a : arg) : t :=
  match a with
  | ArgList types => {| attachment_types := types |}
  | ArgStr type => {| attachment_types := [type] |}
  end.

(** The [for] loop: [return False] at the first attachment whose
    type is not configured, [return True] when the loop runs out. *)
Fixpoint check_loop (types : list string) (atts : list Attachment) : bool :=
  match atts with
  | [] => true
  | attachment :: rest =>
      if negb (bool_decide (type_value attachment ∈ types)) then false
      else check_loop types rest
  end.

Definition check (self : t) (message : Message) : bool :=
  if negb (Py.truthy_opt_list (attachments message)) then false
  else check_loop (attachment_types self) (default [] (attachments message)).

End AttachmentTypeRule.

(** *** StateRule *)

Module StateRule.

(** [state: Union[List[BaseStateGroup], BaseStateGroup]], and [None],
    which the constructor tests for. *)
Inductive arg : Type :=
| ArgNone
| ArgOne (s : StateValue)
| ArgList (l : list StateValue).

Record t := { self_state : list StateValue }.

Definition init (a : arg) : t :=
  match a with
  | ArgList l => {| self_state := l |}
  | ArgNone => {| self_state := [] |}
  | ArgOne s => {| self_state := [s] |}
  end.

Definition check (self : t) (message : Message) : bool :=
  match state_peer message with
  | None => negb (Py.truthy_list (self_state self))
  | Some sp => state_in (state sp) (self_state self)
  end.

End StateRule.

(** *** LevensteinRule *)

Module LevensteinRule.

(** [levenstein_texts: Union[List[str], str]] *)
Inductive arg : Type :=
| ArgList (texts : list string)
| ArgStr (text : string).

Record t := { levenstein_texts : list string; max_distance : Z }.

Definition init (a : arg) (max_distance : Z) : t :=
  match a with
  | ArgStr text => {| levenstein_texts := [text]; max_distance := max_distance |}
  | ArgList texts => {| levenstein_texts := texts; max_distance := max_distance |}
  end.

Section Distance.
Context {A : Type} `{EqDecision A}.

(** The body of the inner loop, for one [j]:
    [current_row[j] = min(add, delete, change)].
    Every subscript can raise [IndexError] ([None]). *)
Definition inner_body (a b : list A) (i : nat) (previous_row : list nat)
    (current_row : list nat) (j : nat) : option (list nat) :=
  add ← (λ x, x + 1)%nat <$> previous_row !! j;
  delete ← (λ x, x + 1)%nat <$> current_row !! (j - 1)%nat;
  change ← previous_row !! (j - 1)%nat;
  a_j ← a !! (j - 1)%nat;
  b_i ← b !! (i - 1)%nat;
  let change := if decide (a_j ≠ b_i) then (change + 1)%nat else change in
  Py.set_item current_row j (add `min` (delete `min` change))%nat.

(** The body of the outer loop, for one [i]. *)
Definition outer_body (a b : list A) (n : nat)
    (current_row : list nat) (i : nat) : option (list nat) :=
  let previous_row := current_row in
  let current_row := [i] ++ replicate n 0%nat in
  Py.for_each (inner_body a b i previous_row) (Py.range 1 (n + 1)) current_row.

(** The two loops, once [a] is the shorter operand. *)
Definition distance_rows (a b : list A) (n m : nat) : option nat :=
  let current_row := Py.range 0 (n + 1) in
  current_row ← Py.for_each (outer_body a b n) (Py.range 1 (m + 1)) current_row;
  current_row !! n.

Definition distance_list (a b : list A) : option nat :=
  let n := length a in
  let m := length b in
  if decide (m < n)%nat (* n > m *) then distance_rows b a m n
  else distance_rows a b n m.

(** The Levenshtein distance, by its defining recurrence on the
    first characters (what [distance] is compared against). *)
Definition cost (x y : A) : nat := if decide (x = y) then 0%nat else 1%nat.

Fixpoint lev (a b : list A) : nat :=
  match a with
  | [] => length b
  | x :: a' =>
      (fix lev_a (b : list A) : nat :=
         match b with
         | [] => length a
         | y :: b' =>
             (lev a' (y :: b') + 1) `min`
             ((lev_a b' + 1) `min` (lev a' b' + cost x y))
         end) b
  end%nat.

(** What the rows hold (proved below).  Row [i] of the table, up
    to column [k]: the distances between the prefixes of [a] and
    the prefix of length [i] of [b]. *)
Definition row (a b : list A) (i k : nat) : list nat :=
  (λ j, lev (take j a) (take i b)) <$> seq 0 (S k).

(** The current row while the inner loop runs: filled up to
    column [k], zero beyond. *)
Definition partial_row (a b : list A) (i k n : nat) : list nat :=
  row a b i k ++ replicate (n - k)%nat 0%nat.
End Distance.

(** [distance(a, b)] on strings. *)
Definition distance (a b : string) : option nat :=
  distance_list (String.list_ascii_of_string a) (String.list_ascii_of_string b).

(** [check]: the first configured text within [max_distance] wins. *)
Fixpoint check_loop (max_distance : Z) (text : string)
    (texts : list string) : option bool :=
  match texts with
  | [] => Some false
  | levenstein_text :: rest =>
      d ← distance text levenstein_text;
      if bool_decide (Z.of_nat d ≤ max_distance) then Some true
      else check_loop max_distance text rest
  end.

Definition check (self : t) (message : Message) : option bool :=
  check_loop (max_distance self) (text message) (levenstein_texts self).

(** The constructor called without [max_distance] ([max_distance: int = 1]). *)
Definition init_default (a : arg) : t := init a 1.

(** The configured texts, whichever way they were given. *)
Definition texts_of (a : arg) : list string :=
  match a with
  | ArgList texts => texts
  | ArgStr text => [text]
  end.

End LevensteinRule.

(** *** PeerRule *)

Module PeerRule.

Record t := { from_chat : bool }.

(** [from_chat: bool = True] *)
Definition init (from_chat : option bool) : t :=
  {| from_chat := default true from_chat |}.

(** [self.from_chat is (message.peer_id != message.from_id)]: both
    operands are [True] or [False], for which [is] is equality. *)
Definition check (self : t) (message : Message) : bool :=
  Bool.eqb (from_chat self) (bool_decide (peer_id message ≠ from_id message)).

End PeerRule.

(** *** CommandRule *)

Definition DEFAULT_PREFIXES : list string := ["!"; "/"].

Module CommandRule.

Record t := { prefixes : list string; command_text : string }.

(** [self.prefixes = prefixes or DEFAULT_PREFIXES] *)
Definition init (command_text : string) (prefixes : option (list string)) : t :=
  {| prefixes := if Py.truthy_opt_list prefixes then default [] prefixes
                 else DEFAULT_PREFIXES;
     command_text := command_text |}.

Fixpoint check_loop (command_text text : string) (prefixes : list string) : bool :=
  match prefixes with
  | [] => false
  | prefix :: rest =>
      if bool_decide (text = prefix +:+ command_text) then true
      else check_loop command_text text rest
  end.

Definition check (self : t) (message : Message) : bool :=
  check_loop (command_text self) (text message) (prefixes self).

End CommandRule.

(** *** FromMeRule *)

Module FromMeRule.

Record t := { from_me : bool; user_id : Z }.

(** [from_me: bool = True] *)
Definition init (user_id : Z) (from_me : option bool) : t :=
  {| from_me := default true from_me; user_id := user_id |}.

Definition check (self : t) (message : Message) : bool :=
  Bool.eqb (bool_decide (from_id message = user_id self)) (from_me self).

End FromMeRule.

(** *** FromUserRule *)

Module FromUserRule.

Record t := { from_user : bool }.

(** [from_user: bool = True] *)
Definition init (from_user : option bool) : t :=
  {| from_user := default true from_user |}.

Definition check (self : t) (message : Message) : bool :=
  Bool.eqb (from_user self) (bool_decide (0 < from_id message)).

End FromUserRule.

(** *** StateGroupRule *)

Module StateGroupRule.

(** [state_group: Union[List[Type[BaseStateGroup]], Type[BaseStateGroup]]],
    and [None]; a state group class is known by its name. *)
Inductive arg : Type :=
| ArgNone
| ArgOne (g : string)
| ArgList (l : list string).

Record t := { state_group : list string }.

Definition init (a : arg) : t :=
  match a with
  | ArgList l => {| state_group := l |}
  | ArgNone => {| state_group := [] |}
  | ArgOne g => {| state_group := [g] |}
  end.

(** [type(message.state_peer.state) in self.state_group] *)
Definition check (self : t) (message : Message) : bool :=
  match state_peer message with
  | None => negb (Py.truthy_list (state_group self))
  | Some sp => bool_decide (state_group_name (state sp) ∈ state_group self)
  end.

End StateGroupRule.

(** Messages to try the rules on. *)
Module Example.
(** A message with nothing but the text [t]. *)
Definition saying (t : string) : Message :=
  {| peer_id := 1; from_id := 1; text := t;
     attachments := None; state_peer := None |}.


(** A message with a photo and a video. *)
Definition photo_and_video : Message :=
  {| peer_id := 1; from_id := 1; text := "";
     attachments := Some [ {| type_value := "photo"; sticker := None |};
                           {| type_value := "video"; sticker := None |} ];
     state_peer := None |}.

(** A message whose only attachment is the sticker [id]. *)
Definition with_sticker (id : Z) : Message :=
  {| peer_id := 1; from_id := 1; text := "";
     attachments := Some [ {| type_value := "sticker";
                              sticker := Some {| sticker_id := id |} |} ];
     state_peer := None |}.
End Example.

End UserRules.

(** ** The state store, as far as [StateRule] depends on it *)

Module StateDispenser.
Import UserRules.


Definition set (store : gmap Z StateValue) (peer : Z) (v : StateValue)
    : gmap Z StateValue :=
  <[peer := v]> store.



End StateDispenser.

(** ** [vkbottle/polling/user_polling.py] *)

Module UserPolling.

(** The session descriptor [messages.getLongPollServer] answers with:
    the dict with keys ["server"], ["key"] and ["ts"]. *)
Record Server := { server : string; key : string; ts : Z }.

#[global] Instance Server_eq_dec : EqDecision Server.
Proof. solve_decision. Defined.

(** [server["ts"] = v] *)
Definition set_ts (s : Server) (v : Z) : Server :=
  {| server := server s; key := key s; ts := v |}.

(** What the long-poll request answers with: a dict in which the loop
    reads ["failed"] (with [get]) and ["ts"] (by subscript); the
    updates are carried along untouched. *)
Record Event := { failed : option Z; event_ts : option Z; updates : list Z }.

#[global] Instance Event_eq_dec : EqDecision Event.
Proof. solve_decision. Defined.

(** The fields of a [UserPolling] object, except [stop] and
    [error_handler], which live in the environment (below). *)
Record t := {
  _api : bool;              (* is [self._api] set? *)
  user_id : option Z;
  wait : Z;
  rps_delay : Z;
}.

(** [x or d] for [Optional[int]]. *)
Definition or_default (x : option Z) (d : Z) : Z :=
  match x with
  | Some v => if v =? 0 then d else v
  | None => d
  end.

Definition init (api : bool) (user_id wait rps_delay : option Z) : t :=
  {| _api := api; user_id := user_id;
     wait := or_default wait 15; rps_delay := or_default rps_delay 0 |}.

(** The collaborators of the poller, as transitions of the world
    [W] outside it. *)
Class Env (W : Type) := {
  (** [(await api.request("users.get", {}))["response"][0]["id"]] *)
  users_get : W → W * result Z;
  (** [(await api.request("messages.getLongPollServer", {}))["response"]] *)
  get_long_poll_server : W → W * result Server;
  (** [session.request_json("POST", url)] for the URL built from the
      session descriptor, [wait] and [rps_delay]. *)
  request_json : Server → Z → Z → W → W * result Event;
  (** Modelled from the spec: [ErrorHandler] is not part of the
      sources at hand; its interface is [handle(exception) -> void],
      which "must never itself raise uncaught". *)
  handle : exn → W → W;
  (** [self.stop]: set to [False] by [__init__] and written only by
      code outside the class, while [listen] is suspended; the loop
      reads whatever the world has left there. *)
  stop : W → bool;
  (** What the consumer of the generator does with a yielded event
      before it asks for the next one (it resumes the generator in the
      ordinary way; throwing into it or closing it is not modelled). *)
  consume : Event → W → W;
}.

(** What an observer of [listen] sees, in order. *)
Inductive action : Type :=
| GetServer (r : result Server)             (* a call of [get_server] and its outcome *)
| GetEvent (s : Server) (r : result Event)  (* a call of [get_event(s)] and its outcome *)
| Handle (e : exn)                          (* [error_handler.handle(e)] *)
| Yield (ev : Event).                       (* [yield ev] *)

Section WithEnv.
Context {W : Type} `{Env W}.

(** The [api] property. *)
Definition api (self : t) : result unit :=
  if _api self then Ok () else Raise NotImplementedError.

Definition get_event (self : t) (s : Server) (w : W) : W * result Event :=
  match api self with
  | Raise e => (w, Raise e)
  | Ok _ => request_json s (wait self) (rps_delay self) w
  end.

Definition set_user_id (self : t) (uid : Z) : t :=
  {| _api := _api self; user_id := Some uid;
     wait := wait self; rps_delay := rps_delay self |}.

Definition get_server (self : t) (w : W) : t * W * result Server :=
  let '(self1, w1, r) :=
    match user_id self with
    | None =>
        match api self with
        | Raise e => (self, w, Raise e)
        | Ok _ =>
            match users_get w with
            | (w1, Raise e) => (self, w1, Raise e)
            | (w1, Ok uid) => (set_user_id self uid, w1, Ok ())
            end
        end
    | Some _ => (self, w, Ok ())
    end in
  match r with
  | Raise e => (self1, w1, Raise e)
  | Ok _ =>
      match api self1 with
      | Raise e => (self1, w1, Raise e)
      | Ok _ => let '(w2, r) := get_long_poll_server w1 in (self1, w2, r)
      end
  end.

(** One pass through the body of [while not self.stop], from the
    [try] to the end of the [except]: the new object, session and
    world, and what was observed. *)
Definition iteration (self : t) (s : Server) (w : W)
    : t * Server * W * list action :=
  match get_event self s w with
  | (w1, Raise e) =>
      (self, s, handle e w1, [GetEvent s (Raise e); Handle e])
  | (w1, Ok event) =>
      if Py.truthy_opt_int (failed event) then
        match get_server self w1 with
        | (self1, w2, Raise e) =>
            (self1, s, handle e w2,
             [GetEvent s (Ok event); GetServer (Raise e); Handle e])
        | (self1, w2, Ok s') =>
            (self1, s', w2, [GetEvent s (Ok event); GetServer (Ok s')])
        end
      else
        match event_ts event with
        | None =>
            let e := KeyError "ts" in
            (self, s, handle e w1, [GetEvent s (Ok event); Handle e])
        | Some v =>
            (self, set_ts s v, consume event w1,
             [GetEvent s (Ok event); Yield event])
        end
  end.

(** How a run of [listen] stands after some number of passes. *)
Inductive status : Type :=
| Looping (self : t) (s : Server) (w : W)   (* at the [while] test *)
| Returned (w : W)                          (* [self.stop] was set *)
| Propagated (e : exn) (w : W).             (* raised out of [listen] *)

(** The [while] loop, run for at most [fuel] passes. *)
Fixpoint loop (fuel : nat) (self : t) (s : Server) (w : W)
    : list action * status :=
  match fuel with
  | O => ([], Looping self s w)
  | S fuel' =>
      if stop w then ([], Returned w)
      else
        let '(self1, s1, w1, acts) := iteration self s w in
        let '(rest, st) := loop fuel' self1 s1 w1 in
        (acts ++ rest, st)
  end.

(** [listen]: the first [get_server] is outside the [try]. *)
Definition listen (fuel : nat) (self : t) (w : W) : list action * status :=
  match get_server self w with
  | (self1, w1, Raise e) => ([GetServer (Raise e)], Propagated e w1)
  | (self1, w1, Ok s) =>
      let '(rest, st) := loop fuel self1 s w1 in
      (GetServer (Ok s) :: rest, st)
  end.

End WithEnv.

(** The shape of what the loop leaves behind when it starts with the
    session [s]: a sequence of passes, each of one of five kinds.
    (Proved of [loop] below; used to reason about positions.) *)
Inductive passes : Server → list action → Prop :=
| passes_done s :
    passes s []
| passes_poll_raised s e rest :
    passes s rest →
    passes s (GetEvent s (Raise e) :: Handle e :: rest)
| passes_expired s event s' rest :
    Py.truthy_opt_int (failed event) = true →
    passes s' rest →
    passes s (GetEvent s (Ok event) :: GetServer (Ok s') :: rest)
| passes_expired_raised s event e rest :
    Py.truthy_opt_int (failed event) = true →
    passes s rest →
    passes s (GetEvent s (Ok event) :: GetServer (Raise e) :: Handle e :: rest)
| passes_no_ts s event rest :
    Py.truthy_opt_int (failed event) = false →
    event_ts event = None →
    passes s rest →
    passes s (GetEvent s (Ok event) :: Handle (KeyError "ts") :: rest)
| passes_yield s event v rest :
    Py.truthy_opt_int (failed event) = false →
    event_ts event = Some v →
    passes (set_ts s v) rest →
    passes s (GetEvent s (Ok event) :: Yield event :: rest).

(** A scripted world: the answers the transport will give, in order,
    and the exceptions the handler has been given.  [stop] is set once
    the scripted long-poll answers have run out. *)
Record Script := {
  polls : list (result Event);
  sessions : list (result Server);
  handled : list exn;
}.

Definition script_next {A} (d : result A) (l : list (result A))
    : result A * list (result A) :=
  match l with
  | [] => (d, [])
  | r :: rest => (r, rest)
  end.

#[global] Instance Script_env : Env Script := {|
  users_get w := (w, Ok 1);
  get_long_poll_server w :=
    let '(r, rest) := script_next (Raise (Raised "no session")) (sessions w) in
    ({| polls := polls w; sessions := rest; handled := handled w |}, r);
  request_json _ _ _ w :=
    let '(r, rest) := script_next (Raise (Raised "timeout")) (polls w) in
    ({| polls := rest; sessions := sessions w; handled := handled w |}, r);
  handle e w :=
    {| polls := polls w; sessions := sessions w; handled := handled w ++ [e] |};
  stop w := bool_decide (polls w = []);
  consume _ w := w;
|}.

(** [construct(api, error_handler)]: sets [self._api] (and the error
    handler, which lives in the environment here) and returns [self]. *)
Definition construct (self : t) : t :=
  {| _api := true; user_id := user_id self;
     wait := wait self; rps_delay := rps_delay self |}.

(** The events a run has yielded, in order. *)
Fixpoint yielded (l : list action) : list Event :=
  match l with
  | [] => []
  | Yield event :: rest => event :: yielded rest
  | _ :: rest => yielded rest
  end.

(** The answers of the long-poll requests of a run that neither raised
    nor signalled an expired session and carried a ["ts"], in order. *)
Fixpoint answered (l : list action) : list Event :=
  match l with
  | [] => []
  | GetEvent _ (Ok event) :: rest =>
      if Py.truthy_opt_int (failed event) then answered rest
      else if event_ts event is Some _ then event :: answered rest
      else answered rest
  | _ :: rest => answered rest
  end.

(** The session a run holds after the actions [l], read off the
    actions alone: the one last returned by [get_server], with the
    ["ts"] of every event yielded since written into it. *)
Definition session_step (cur : option Server) (a : action) : option Server :=
  match a with
  | GetServer (Ok s) => Some s
  | Yield event =>
      match cur, event_ts event with
      | Some s, Some v => Some (set_ts s v)
      | _, _ => cur
      end
  | _ => cur
  end.

Definition session_after (l : list action) : option Server :=
  foldl session_step None l.

(** A run to try the loop on: the first poll times out, the second
    reports an expired session, the third brings an update. *)
Module Example.
Definition poller : t := init true (Some 7) None None.
Definition s0 : Server := {| server := "lp.vk.com/1"; key := "k0"; ts := 10 |}.
Definition s1 : Server := {| server := "lp.vk.com/2"; key := "k1"; ts := 20 |}.
Definition timeout : exn := Raised "timeout".
Definition expired : Event := {| failed := Some 2; event_ts := None; updates := [] |}.
Definition update : Event := {| failed := None; event_ts := Some 21; updates := [4] |}.
Definition world : Script :=
  {| polls := [Raise timeout; Ok expired; Ok update];
     sessions := [Ok s0; Ok s1];
     handled := [] |}.
(** The same, but the second acquisition fails. *)
Definition world' : Script :=
  {| polls := [Ok expired; Ok update];
     sessions := [Ok s0; Raise (Raised "api down")];
     handled := [] |}.
End Example.

End UserPolling.

(** ** [vkbottle/framework/bot/labeler/default.py] *)

Module BotLabeler.

(** The rule classes the registry can hold: the ones the module
    imports, and any class a user registers under a name of their own. *)
Inductive RuleClass : Type :=
| PeerRule | CommandRule | FromUserRule | FromPeerRule | StickerRule
| AttachmentTypeRule | LevensteinRule | MessageLengthRule | ChatActionRule
| PayloadRule | PayloadContainsRule | PayloadMapRule | FuncRule
| CoroutineRule | StateRule | StateGroupRule | RegexRule | VBMLRule
| UserRule (name : string).

#[global] Instance RuleClass_eq_dec : EqDecision RuleClass.
Proof. solve_decision. Defined.

(** Values handed to rule constructors. *)
Inductive Value : Type :=
| VNone
| VBool (b : bool)
| VInt (z : Z)
| VStr (s : string).

(** A rule object: the class it was made from and the argument it was
    made with. *)
Record Rule := { rule_class : RuleClass; rule_arg : Value }.

(** Functions, middlewares and dataclasses are objects the labeler
    stores and never looks into: they are known by name. *)
Definition Func := string.
Definition Middleware := string.
Definition DataClass := string.

(** [FromFuncHandler(func, *rules, blocking=...)]; [blocking] is [None]
    where the call leaves it to the constructor's default. *)
Record FromFuncHandler := {
  handler_func : Func;
  handler_rules : list Rule;
  handler_blocking : option bool;
}.

(** [BotHandlerBasement(dataclass, handler)] *)
Record BotHandlerBasement := {
  basement_dataclass : DataClass;
  basement_handler : FromFuncHandler;
}.

(** [BotMessageView]: both attributes are lists ([append], [extend]). *)
Record BotMessageView := {
  handlers : list FromFuncHandler;
  middlewares : list Middleware;
}.

(** [BotRawEventView]: [handlers] is a dict keyed by the event name
    (subscript assignment, [update]); [middlewares] is a list. *)
Record BotRawEventView := {
  raw_handlers : gmap string BotHandlerBasement;
  raw_middlewares : list Middleware;
}.

(** Entries of [rule_config]. *)
Inductive ConfigValue : Type :=
| Flags (flags : Z)          (* a [re.RegexFlag] *)
| Patcher (patcher : string) (* a [vbml.Patcher] *).

Definition MULTILINE : Z := 8.
Definition IGNORECASE : Z := 2.

(** Dict objects live in a heap, so that two names for one dict see
    each other's writes. *)
Definition addr := nat.

Record State := {
  heap : gmap addr (gmap string RuleClass);
  (** the module-level name [CUSTOM_RULES] *)
  CUSTOM_RULES : addr;
}.

(** The dict literal bound to [CUSTOM_RULES] when the module is loaded. *)
Definition CUSTOM_RULES_literal : gmap string RuleClass :=
  list_to_map [
    ("from_chat", PeerRule); ("command", CommandRule);
    ("from_user", FromUserRule); ("peer_ids", FromPeerRule);
    ("sticker", StickerRule); ("attachment", AttachmentTypeRule);
    ("levenstein", LevensteinRule); ("lev", LevensteinRule);
    ("length", MessageLengthRule); ("action", ChatActionRule);
    ("payload", PayloadRule); ("payload_contains", PayloadContainsRule);
    ("payload_map", PayloadMapRule); ("func", FuncRule);
    ("coro", CoroutineRule); ("coroutine", CoroutineRule);
    ("state", StateRule); ("state_group", StateGroupRule);
    ("regexp", RegexRule); ("text", VBMLRule)
  ]%string.

Definition module_loaded : State :=
  {| heap := {[ 0%nat := CUSTOM_RULES_literal ]}; CUSTOM_RULES := 0%nat |}.

(** [d.update(other)]: the entries of [other] win. *)
Definition dict_update {V} (d other : gmap string V) : gmap string V :=
  other ∪ d.

(** A [BotLabeler] object.  [custom_rules] holds a reference. *)
Record t := {
  message_view : BotMessageView;
  raw_event_view : BotRawEventView;
  custom_rules : addr;
  auto_rules : list Rule;
  rule_config : gmap string ConfigValue;
}.

(** [**kwargs] of the constructor: only ["custom_rules"] is read. *)
Record Kwargs := { kw_custom_rules : option (gmap string RuleClass) }.

(** [__init__] *)
Definition init (kwargs : Kwargs) (st : State) : t * State :=
  let st1 :=
    {| heap := alter (λ d, dict_update d (default ∅ (kw_custom_rules kwargs)))
                     (CUSTOM_RULES st) (heap st);
       CUSTOM_RULES := CUSTOM_RULES st |} in
  ({| message_view := {| handlers := []; middlewares := [] |};
      raw_event_view := {| raw_handlers := ∅; raw_middlewares := [] |};
      custom_rules := CUSTOM_RULES st1;
      auto_rules := [];
      rule_config := {[ "vbml_flags" := Flags MULTILINE;
                        "vbml_patcher" := Patcher "vbml.Patcher()" ]} |},
   st1).

(** The state after constructing one labeler per element of [kws]. *)
Definition constructed (kws : list Kwargs) (st : State) : State :=
  foldl (λ st kw, (init kw st).2) st kws.

(** The dict bound to [CUSTOM_RULES] in a state. *)
Definition registry (st : State) : gmap string RuleClass :=
  default ∅ (heap st !! CUSTOM_RULES st).

(** Reading [self.custom_rules]: the dict the reference points to. *)
Definition custom_rules_dict (self : t) (st : State) : gmap string RuleClass :=
  default ∅ (heap st !! custom_rules self).

Definition set_rule_config (self : t) (c : gmap string ConfigValue) : t :=
  {| message_view := message_view self; raw_event_view := raw_event_view self;
     custom_rules := custom_rules self; auto_rules := auto_rules self;
     rule_config := c |}.

Definition set_message_view (self : t) (v : BotMessageView) : t :=
  {| message_view := v; raw_event_view := raw_event_view self;
     custom_rules := custom_rules self; auto_rules := auto_rules self;
     rule_config := rule_config self |}.

Definition set_raw_event_view (self : t) (v : BotRawEventView) : t :=
  {| message_view := message_view self; raw_event_view := v;
     custom_rules := custom_rules self; auto_rules := auto_rules self;
     rule_config := rule_config self |}.

(** [d[k]] *)
Definition subscript {V} (d : gmap string V) (k : string) : result V :=
  match d !! k with
  | Some v => Ok v
  | None => Raise (KeyError k)
  end.

(** The [vbml_ignore_case] getter. *)
Definition vbml_ignore_case (self : t) : result bool :=
  v ← subscript (rule_config self) "flags";
  match v with
  | Flags f => Ok (Z.land f IGNORECASE =? IGNORECASE)
  | Patcher _ => Raise (Raised "TypeError")
  end.

(** The [vbml_ignore_case] setter. *)
Definition set_vbml_ignore_case (self : t) (ignore_case : bool) : result t :=
  v ← subscript (rule_config self) "vbml_flags";
  match v with
  | Flags f =>
      let f' := if negb ignore_case then Z.lxor f IGNORECASE
                else Z.lor f IGNORECASE in
      Ok (set_rule_config self (<["vbml_flags" := Flags f']> (rule_config self)))
  | Patcher _ => Raise (Raised "TypeError")
  end.

Definition vbml_patcher (self : t) : result ConfigValue :=
  subscript (rule_config self) "vbml_patcher".

Definition set_vbml_patcher (self : t) (patcher : string) : t :=
  set_rule_config self (<["vbml_patcher" := Patcher patcher]> (rule_config self)).

Definition vbml_flags (self : t) : result ConfigValue :=
  subscript (rule_config self) "vbml_flags".

Definition set_vbml_flags (self : t) (flags : Z) : t :=
  set_rule_config self (<["vbml_flags" := Flags flags]> (rule_config self)).

(** What the labeler calls without defining it: the conversion of the
    rule shorthands ([convert_shorten_filter], taken as it is declared:
    a function from a shorthand to a rule) and the rule constructors
    ([cls.with_config(config)(v)], which may raise). *)
Class Collaborators := {
  ShortenRule : Type;
  convert_shorten_filter : ShortenRule → Rule;
  construct : RuleClass → gmap string ConfigValue → Value → result Rule;
}.

(** [event: Union[str, List[str]]] *)
Inductive EventArg : Type :=
| EventStr (e : string)
| EventList (es : list string).

Section Registration.
Context `{Collaborators}.

(** The list comprehension of [get_custom_rules], over the items of
    the keyword dict in their order. *)
Fixpoint get_custom_rules_items (registry : gmap string RuleClass)
    (config : gmap string ConfigValue) (items : list (string * Value))
    : result (list Rule) :=
  match items with
  | [] => Ok []
  | (k, v) :: rest =>
      cls ← subscript registry k;
      rule ← construct cls config v;
      rules ← get_custom_rules_items registry config rest;
      Ok (rule :: rules)
  end.

Definition get_custom_rules (self : t) (st : State)
    (custom_rules : list (string * Value)) : result (list Rule) :=
  get_custom_rules_items (custom_rules_dict self st) (rule_config self) custom_rules.

(** One keyword resolved: the class the registry holds under its
    name, made into a rule with the rule config and the value. *)
Definition resolves (reg : gmap string RuleClass) (config : gmap string ConfigValue)
    (item : string * Value) (rule : Rule) : Prop :=
  ∃ cls, reg !! item.1 = Some cls ∧ construct cls config item.2 = Ok rule.

(** [self.message_view.handlers.append(h)] *)
Definition append_message_handler (self : t) (h : FromFuncHandler) : t :=
  set_message_view self
    {| handlers := handlers (message_view self) ++ [h];
       middlewares := middlewares (message_view self) |}.

(** The three message decorators differ in the rules they put first. *)
Definition message_decorator (first : list Rule)
    (rules : list ShortenRule) (blocking : bool)
    (custom_rules : list (string * Value))
    (func : Func) (self : t) (st : State) : t * result Func :=
  match get_custom_rules self st custom_rules with
  | Raise e => (self, Raise e)
  | Ok customs =>
      (append_message_handler self
         {| handler_func := func;
            handler_rules :=
              first ++ (convert_shorten_filter <$> rules)
                    ++ auto_rules self ++ customs;
            handler_blocking := Some blocking |},
       Ok func)
  end.

(** [message] with its rules, [blocking] and keywords returns [decorator];
    [decorator(func)] acts on the labeler as it is when applied. *)
Definition message := message_decorator [].

Definition chat_message :=
  message_decorator [{| rule_class := PeerRule; rule_arg := VBool true |}].

Definition private_message :=
  message_decorator [{| rule_class := PeerRule; rule_arg := VBool false |}].

(** [self.raw_event_view.handlers[e] = b] *)
Definition set_raw_handler (self : t) (e : string) (b : BotHandlerBasement) : t :=
  set_raw_event_view self
    {| raw_handlers := <[e := b]> (raw_handlers (raw_event_view self));
       raw_middlewares := raw_middlewares (raw_event_view self) |}.

(** The [for e in event] loop of [raw_event]'s decorator. *)
Fixpoint raw_event_loop (events : list string) (dataclass : DataClass)
    (rules : list ShortenRule) (custom_rules : list (string * Value))
    (func : Func) (self : t) (st : State) : t * result Func :=
  match events with
  | [] => (self, Ok func)
  | e :: rest =>
      match get_custom_rules self st custom_rules with
      | Raise ex => (self, Raise ex)
      | Ok customs =>
          let self1 :=
            set_raw_handler self e
              {| basement_dataclass := dataclass;
                 basement_handler :=
                   {| handler_func := func;
                      handler_rules :=
                        (convert_shorten_filter <$> rules)
                          ++ auto_rules self ++ customs;
                      handler_blocking := None |} |} in
          raw_event_loop rest dataclass rules custom_rules func self1 st
      end
  end.

Definition raw_event (event : EventArg) (dataclass : DataClass)
    (rules : list ShortenRule) (custom_rules : list (string * Value))
    (func : Func) (self : t) (st : State) : t * result Func :=
  let event := match event with
               | EventList es => es
               | EventStr e => [e]
               end in
  raw_event_loop event dataclass rules custom_rules func self st.

End Registration.

(** [load] *)
Definition load (self labeler : t) : t :=
  let mv :=
    {| handlers := handlers (message_view self)
                     ++ handlers (message_view labeler);
       middlewares := middlewares (message_view self)
                        ++ middlewares (message_view labeler) |} in
  let rv :=
    {| raw_handlers := dict_update (raw_handlers (raw_event_view self))
                                   (raw_handlers (raw_event_view labeler));
       raw_middlewares := raw_middlewares (raw_event_view self)
                            ++ raw_middlewares (raw_event_view labeler) |} in
  set_raw_event_view (set_message_view self mv) rv.

(** The calls that change a labeler.  Reading the rule config,
    [get_custom_rules] and [views] change nothing. *)
Inductive call `{Collaborators} : Type :=
| CallSetIgnoreCase (ignore_case : bool)
| CallSetPatcher (patcher : string)
| CallSetFlags (flags : Z)
| CallMessage (rules : list ShortenRule) (blocking : bool)
    (custom_rules : list (string * Value)) (func : Func)
| CallChatMessage (rules : list ShortenRule) (blocking : bool)
    (custom_rules : list (string * Value)) (func : Func)
| CallPrivateMessage (rules : list ShortenRule) (blocking : bool)
    (custom_rules : list (string * Value)) (func : Func)
| CallRawEvent (event : EventArg) (dataclass : DataClass)
    (rules : list ShortenRule) (custom_rules : list (string * Value))
    (func : Func)
| CallLoad (labeler : t).

(** The labeler after a call, whether it returned or raised. *)
Definition after_call `{Collaborators} (st : State) (self : t) (c : call) : t :=
  match c with
  | CallSetIgnoreCase b =>
      match set_vbml_ignore_case self b with
      | Ok self' => self'
      | Raise _ => self
      end
  | CallSetPatcher p => set_vbml_patcher self p
  | CallSetFlags f => set_vbml_flags self f
  | CallMessage rs b cs f => (message rs b cs f self st).1
  | CallChatMessage rs b cs f => (chat_message rs b cs f self st).1
  | CallPrivateMessage rs b cs f => (private_message rs b cs f self st).1
  | CallRawEvent ev d rs cs f => (raw_event ev d rs cs f self st).1
  | CallLoad other => load self other
  end.

(** The labeler after a sequence of calls, each in the state of its time. *)
Definition after_calls `{Collaborators} (self : t) (cs : list (State * call)) : t :=
  foldl (λ self c, after_call c.1 self c.2) self cs.

(** A simple instance: shorthands are rules, constructors never raise. *)
Definition plain_collaborators : Collaborators :=
  {| ShortenRule := Rule;
     convert_shorten_filter := id;
     construct cls _ v := Ok {| rule_class := cls; rule_arg := v |} |}.

(** Labelers to try the operations on. *)
Module Example.
#[local] Existing Instance plain_collaborators.

Definition no_kwargs : Kwargs := {| kw_custom_rules := None |}.

(** [bl = BotLabeler()] right after the module is loaded. *)
Definition fresh : t := (init no_kwargs module_loaded).1.
Definition st : State := (init no_kwargs module_loaded).2.

(** [@R.raw_event("message_new", dict) def on_new_R] and
    [@R.message(text="hi") def hello]. *)
Definition R : t :=
  (message [] true [("text", VStr "hi")] "hello"
     (raw_event (EventStr "message_new") "dict" [] [] "on_new_R" fresh st).1
     st).1.

(** [@F.raw_event("message_new", dict) def on_new_F] *)
Definition F : t :=
  (raw_event (EventStr "message_new") "dict" [] [] "on_new_F" fresh st).1.

Definition basement (func : Func) : BotHandlerBasement :=
  {| basement_dataclass := "dict";
     basement_handler := {| handler_func := func; handler_rules := [];
                            handler_blocking := None |} |}.

(** [BotLabeler(custom_rules={"mine": MyRule})] *)
Definition mine : Kwargs :=
  {| kw_custom_rules := Some {[ "mine" := UserRule "MyRule" ]} |}.
End Example.

End BotLabeler.

(* ===================================================================== *)
(** * Part II.  Properties                                               *)
(* ===================================================================== *)

(** ** Rules *)

Section RuleFacts.
Import UserRules UserRules.Example.

Lemma truthy_list_false {A} (l : list A) : Py.truthy_list l = false ↔ l = [].
Proof. destruct l; simpl; split; congruence. Qed.

Lemma contains_spec (x : Py.scalar) (l : list Py.scalar) :
  Py.contains x l = true ↔ ∃ y, y ∈ l ∧ Py.int_of x = Py.int_of y.
Proof.
  unfold Py.contains. rewrite existsb_exists. split.
  - intros (y & Hin & Heq). exists y. split; [by apply list_elem_of_In |].
    unfold Py.eqb in Heq. by apply bool_decide_eq_true in Heq.
  - intros (y & Hin & Heq). exists y. split; [by apply list_elem_of_In |].
    unfold Py.eqb. by apply bool_decide_eq_true.
Qed.

(** *** StateRule *)








(** *** AttachmentTypeRule *)

Lemma AttachmentTypeRule_check_loop_spec types atts :
  AttachmentTypeRule.check_loop types atts = true
  ↔ Forall (λ a, type_value a ∈ types) atts.
Proof.
  induction atts as [| a atts IH]; simpl.
  - split; [constructor | done].
  - rewrite Forall_cons. case_bool_decide; simpl.
    + rewrite IH. tauto.
    + split; [discriminate | tauto].
Qed.

(** C2.  [AttachmentTypeRule.check] matches exactly when the message
    has at least one attachment and the type of every attachment is
    among the configured types, whether the rule was given a list or a
    single type; a message with a photo and a video does not match the
    rule configured with ["photo"] alone. *)
Theorem AttachmentTypeRule_matches :
  (∀ (a : AttachmentTypeRule.arg) (m : Message),
     AttachmentTypeRule.check (AttachmentTypeRule.init a) m = true
     ↔ ∃ first rest,
         attachments m = Some (first :: rest)
         ∧ ∀ att, att ∈ first :: rest →
             type_value att ∈
               match a with
               | AttachmentTypeRule.ArgList types => types
               | AttachmentTypeRule.ArgStr type => [type]
               end)
  ∧ AttachmentTypeRule.check
      (AttachmentTypeRule.init (AttachmentTypeRule.ArgList ["photo"]))
      photo_and_video = false
  ∧ AttachmentTypeRule.check
      (AttachmentTypeRule.init (AttachmentTypeRule.ArgStr "photo"))
      photo_and_video = false
  ∧ AttachmentTypeRule.check
      (AttachmentTypeRule.init (AttachmentTypeRule.ArgList ["photo"; "video"]))
      photo_and_video = true.
Proof.
  split; [| by vm_compute].
  intros a m. unfold AttachmentTypeRule.check.
  set (types := match a with
                | AttachmentTypeRule.ArgList types => types
                | AttachmentTypeRule.ArgStr type => [type]
                end).
  replace (AttachmentTypeRule.attachment_types (AttachmentTypeRule.init a))
    with types by (by destruct a).
  destruct (attachments m) as [[| first rest] |] eqn:Hm; simpl.
  - split; [discriminate | intros (? & ? & ? & _); discriminate].
  - change (AttachmentTypeRule.check_loop types (first :: rest) = true ↔
            ∃ f r, Some (first :: rest) = Some (f :: r)
                   ∧ ∀ att, att ∈ f :: r → type_value att ∈ types).
    rewrite AttachmentTypeRule_check_loop_spec, Forall_forall. split.
    + intros Hall. by exists first, rest.
    + intros (f & r & Heq & Hall). by simplify_eq.
  - split; [discriminate | intros (? & ? & ? & _); discriminate].
Qed.

(** *** StickerRule *)

(** What [StickerRule.check] computes: the first attachment is a
    sticker and either nothing is configured or some configured value
    equals the sticker id (as Python compares ints and bools). *)
Lemma StickerRule_check_spec (self : StickerRule.t) (m : Message) :
  StickerRule.check self m = true
  ↔ ∃ first rest st,
      attachments m = Some (first :: rest) ∧ sticker first = Some st
      ∧ (StickerRule.sticker_ids self = []
         ∨ ∃ v, v ∈ StickerRule.sticker_ids self ∧ Py.int_of v = sticker_id st).
Proof.
  unfold StickerRule.check.
  destruct (attachments m) as [[| first rest] |];
    try (split; [discriminate | intros (? & ? & ? & ? & _); discriminate]).
  destruct (sticker first) as [st |] eqn:Hst.
  - rewrite orb_true_iff, negb_true_iff, truthy_list_false, contains_spec.
    split.
    + intros Hcase. exists first, rest, st. repeat split; [done |].
      destruct Hcase as [-> | (v & Hin & Heq)]; [by left | right].
      exists v. by split.
    + intros (f & r & st' & Heq & Hst' & Hcase). simplify_eq.
      destruct Hcase as [-> | (v & Hin & Heq)]; [by left | right].
      exists v. by split.
  - split; [discriminate |].
    intros (f & r & st' & Heq & Hst' & _). simplify_eq.
Qed.

(** C7 (the code at the failing input).  A rule made from a list of
    ids, from one id or from the empty list behaves as described: with
    the empty list every sticker matches.  A rule made from [True]
    holds the list [[True]]: it matches the sticker with id 1 and
    no other, so a message whose first attachment is the sticker 2
    is rejected. *)
Theorem StickerRule_true_matches_only_sticker_1 :
  (∀ id, StickerRule.check (StickerRule.init (StickerRule.ArgList []))
           (with_sticker id) = true)
  ∧ StickerRule.sticker_ids (StickerRule.init (StickerRule.ArgBool true))
    = [Py.PBool true]
  ∧ (∀ id, StickerRule.check (StickerRule.init (StickerRule.ArgBool true))
             (with_sticker id) = true ↔ id = 1)
  ∧ StickerRule.check (StickerRule.init (StickerRule.ArgBool true))
      (with_sticker 2) = false.
Proof.
  split; [done |]. split; [done |]. split; [| by vm_compute].
  intros id. rewrite StickerRule_check_spec. simpl. split.
  - intros (f & r & st & Heq & Hst & Hcase). simplify_eq. simpl in *.
    destruct Hcase as [? | (v & Hin & Hv)]; [done |].
    apply list_elem_of_singleton in Hin. subst v.
    injection Hst as <-. simpl in Hv. lia.
  - intros ->. eexists _, _, _. repeat split. right.
    exists (Py.PBool true). split; [set_solver | done].
Qed.

End RuleFacts.

(** ** The edit distance *)

Section LevFacts.
Import UserRules UserRules.LevensteinRule.
Context {A : Type} `{EqDecision A}.
Implicit Types a b : list A.
Local Open Scope nat_scope.

Lemma lev_nil_l b : lev [] b = length b.
Proof. reflexivity. Qed.

Lemma lev_nil_r a : lev a [] = length a.
Proof. by destruct a. Qed.

Lemma lev_cons x y a b :
  lev (x :: a) (y :: b)
  = (lev a (y :: b) + 1) `min` ((lev (x :: a) b + 1) `min` (lev a b + cost x y)).
Proof. reflexivity. Qed.

Lemma cost_sym (x y : A) : cost x y = cost y x.
Proof. unfold cost. repeat case_decide; congruence. Qed.

Lemma cost_le_1 (x y : A) : cost x y ≤ 1.
Proof. unfold cost. case_decide; lia. Qed.

Lemma lev_sym a b : lev a b = lev b a.
Proof.
  revert b. induction a as [| x a IHa]; intros b.
  - by rewrite lev_nil_l, lev_nil_r.
  - induction b as [| y b IHb].
    + by rewrite lev_nil_l, lev_nil_r.
    + rewrite !lev_cons, IHb, (IHa (y :: b)), (IHa b), (cost_sym x y). lia.
Qed.

Lemma lev_diag a : lev a a = 0.
Proof.
  induction a as [| x a IH]; [done |].
  rewrite lev_cons, IH. unfold cost. rewrite decide_True by done. lia.
Qed.

Lemma lev_zero a b : lev a b = 0 → a = b.
Proof.
  revert b. induction a as [| x a IHa]; intros [| y b] Hz.
  - done.
  - rewrite lev_nil_l in Hz. simpl in Hz. lia.
  - rewrite lev_nil_r in Hz. simpl in Hz. lia.
  - rewrite lev_cons in Hz. unfold cost in Hz.
    destruct (decide (x = y)) as [-> | Hne]; [| lia].
    f_equal. apply IHa. lia.
Qed.

(** Two minima are equal when they have the same lower bounds. *)
Lemma nat_eq_by_lower_bounds (m n : nat) : (∀ k, k ≤ m ↔ k ≤ n) → m = n.
Proof.
  intros Hk. apply Nat.le_antisymm.
  - by apply Hk.
  - by apply Hk.
Qed.

Ltac min_bounds :=
  rewrite <- ?Nat.add_min_distr_r;
  apply nat_eq_by_lower_bounds; intros ?k;
  rewrite ?Nat.min_glb_iff; lia.

(** The recurrence on the last characters, which is the one the rows
    of [distance] follow. *)
Lemma lev_snoc a b x y :
  lev (a ++ [x]) (b ++ [y])
  = (lev (a ++ [x]) b + 1) `min` ((lev a (b ++ [y]) + 1) `min` (lev a b + cost x y)).
Proof.
  revert b. induction a as [| a1 a IHa]; intros b.
  - induction b as [| b1 b IHb].
    + simpl. pose proof (cost_le_1 x y). lia.
    + change (([] ++ [x])) with [x] in *.
      change ((b1 :: b) ++ [y]) with (b1 :: (b ++ [y])).
      rewrite !lev_cons, IHb, !lev_nil_l. simpl length.
      rewrite length_app. simpl length.
      pose proof (cost_le_1 x b1). pose proof (cost_le_1 x y).
      min_bounds.
  - induction b as [| b1 b IHb].
    + change (((a1 :: a) ++ [x])) with (a1 :: (a ++ [x])).
      pose proof (IHa []) as IH0.
      change ([] ++ [y]) with [y] in *.
      rewrite !lev_cons, IH0, !lev_nil_r. simpl length.
      rewrite length_app. simpl length.
      pose proof (cost_le_1 a1 y). pose proof (cost_le_1 x y).
      min_bounds.
    + change (((a1 :: a) ++ [x])) with (a1 :: (a ++ [x])) in *.
      change ((b1 :: b) ++ [y]) with (b1 :: (b ++ [y])).
      pose proof (IHa (b1 :: b)) as IH1. pose proof (IHa b) as IH2.
      change ((b1 :: b) ++ [y]) with (b1 :: (b ++ [y])) in IH1.
      rewrite !lev_cons, IHb, IH1, IH2, ?lev_cons.
      min_bounds.
Qed.

Lemma row_length a b i k : length (row a b i k) = S k.
Proof. unfold row. by rewrite length_fmap, length_seq. Qed.

Lemma row_lookup a b i k j :
  j ≤ k → row a b i k !! j = Some (lev (take j a) (take i b)).
Proof.
  intros Hj. unfold row. rewrite list_lookup_fmap, lookup_seq_lt by lia.
  reflexivity.
Qed.

Lemma row_S a b i k :
  row a b i (S k) = row a b i k ++ [lev (take (S k) a) (take i b)].
Proof. unfold row. by rewrite (seq_S (S k)), fmap_app. Qed.

Lemma partial_row_lookup a b i k n j :
  j ≤ k → partial_row a b i k n !! j = Some (lev (take j a) (take i b)).
Proof.
  intros Hj. unfold partial_row.
  rewrite lookup_app_l by (rewrite row_length; lia). by apply row_lookup.
Qed.

Lemma partial_row_full a b i n : partial_row a b i n n = row a b i n.
Proof. unfold partial_row. by rewrite Nat.sub_diag, app_nil_r. Qed.

Lemma partial_row_first a b i n :
  i ≤ length b → partial_row a b i 0 n = [i] ++ replicate n 0.
Proof.
  intros Hi. unfold partial_row, row. simpl.
  by rewrite length_take, Nat.min_l, Nat.sub_0_r by lia.
Qed.

Lemma row_first a b n : n ≤ length a → row a b 0 n = Py.range 0 (n + 1).
Proof.
  intros Hn. unfold row, Py.range. rewrite Nat.sub_0_r, Nat.add_1_r.
  apply list_eq. intros j. rewrite list_lookup_fmap.
  destruct (decide (j < S n)) as [Hj | Hj].
  - rewrite lookup_seq_lt by done. simpl.
    by rewrite take_0, lev_nil_r, length_take, Nat.min_l by lia.
  - by rewrite lookup_seq_ge by lia.
Qed.

Lemma inner_body_step a b i k :
  k < length a → i < length b →
  inner_body a b (S i) (row a b i (length a))
    (partial_row a b (S i) k (length a)) (S k)
  = Some (partial_row a b (S i) (S k) (length a)).
Proof.
  intros Hk Hi. unfold inner_body.
  destruct (lookup_lt_is_Some_2 a k Hk) as [x Hx].
  destruct (lookup_lt_is_Some_2 b i Hi) as [y Hy].
  replace (S k - 1) with k by lia. replace (S i - 1) with i by lia.
  rewrite !row_lookup, partial_row_lookup by lia. rewrite Hx, Hy. simpl.
  unfold Py.set_item. rewrite decide_True; last first.
  { unfold partial_row. rewrite length_app, row_length, length_replicate. lia. }
  f_equal. unfold partial_row.
  rewrite insert_app_r_alt by (rewrite row_length; lia).
  rewrite row_length, Nat.sub_diag.
  replace (length a - k) with (S (length a - S k)) by lia.
  rewrite row_S, <- app_assoc.
  rewrite (take_S_r a k x Hx), (take_S_r b i y Hy), lev_snoc.
  f_equal. simpl. f_equal.
  unfold cost. repeat case_decide; try congruence; lia.
Qed.

Lemma inner_loop a b i d : ∀ k,
  k + d = length a → i < length b →
  Py.for_each (inner_body a b (S i) (row a b i (length a))) (seq (S k) d)
    (partial_row a b (S i) k (length a))
  = Some (row a b (S i) (length a)).
Proof.
  induction d as [| d IH]; intros k Hk Hi; simpl.
  - replace k with (length a) by lia. by rewrite partial_row_full.
  - rewrite inner_body_step by lia. simpl. apply IH; lia.
Qed.

Lemma outer_body_step a b i :
  i < length b →
  outer_body a b (length a) (row a b i (length a)) (S i)
  = Some (row a b (S i) (length a)).
Proof.
  intros Hi. unfold outer_body, Py.range.
  rewrite <- (partial_row_first a b (S i) (length a)) by lia.
  replace (length a + 1 - 1) with (length a) by lia.
  apply inner_loop; lia.
Qed.

Lemma outer_loop a b d : ∀ i,
  i + d ≤ length b →
  Py.for_each (outer_body a b (length a)) (seq (S i) d) (row a b i (length a))
  = Some (row a b (i + d) (length a)).
Proof.
  induction d as [| d IH]; intros i Hi; simpl.
  - by rewrite Nat.add_0_r.
  - rewrite outer_body_step by lia. simpl.
    rewrite IH by lia. do 2 f_equal. lia.
Qed.

(** The two loops fill the table and return its last entry. *)
Lemma distance_rows_lev a b :
  distance_rows a b (length a) (length b) = Some (lev a b).
Proof.
  unfold distance_rows. rewrite <- (row_first a b) by lia.
  unfold Py.range. replace (length b + 1 - 1) with (length b) by lia.
  rewrite outer_loop by lia. simpl.
  rewrite row_lookup by lia. by rewrite !firstn_all.
Qed.

(** [distance] never raises and returns the Levenshtein distance. *)
Lemma distance_list_lev a b : distance_list a b = Some (lev a b).
Proof.
  unfold distance_list. case_decide.
  - by rewrite distance_rows_lev, lev_sym.
  - apply distance_rows_lev.
Qed.

End LevFacts.

Section LevensteinRuleFacts.
Import UserRules UserRules.LevensteinRule.

Local Abbreviation chars := String.list_ascii_of_string.

Lemma distance_lev (a b : string) : distance a b = Some (lev (chars a) (chars b)).
Proof. apply distance_list_lev. Qed.

Lemma LevensteinRule_check_loop_spec (max_distance : Z) (text : string)
    (texts : list string) :
  check_loop max_distance text texts
  = Some (bool_decide
            (Exists (λ t, (Z.of_nat (lev (chars text) (chars t)) ≤ max_distance)%Z)
                    texts)).
Proof.
  induction texts as [| t texts IH].
  - reflexivity.
  - cbn [check_loop]. rewrite distance_lev. cbn [mbind option_bind].
    destruct (decide (Z.of_nat (lev (chars text) (chars t)) ≤ max_distance)%Z)
      as [Hd | Hd].
    + rewrite (bool_decide_eq_true_2 _ Hd).
      by rewrite bool_decide_eq_true_2 by (by apply Exists_cons_hd).
    + rewrite (bool_decide_eq_false_2 _ Hd), IH. f_equal.
      apply bool_decide_ext. rewrite Exists_cons. tauto.
Qed.

(** C3.  [distance] never raises and returns the Levenshtein distance
    of its operands, as the recurrence [lev] defines it, over any
    alphabet; it is symmetric; it is zero exactly on equal strings;
    against the empty string it is the length of the other operand;
    [distance("", "") = 0], [distance("abc", "abc") = 0] and
    [distance("kitten", "sitting") = 3].  [check] never raises, and
    matches exactly when some configured text is at distance at most
    [max_distance] from the text of the message. *)
Theorem LevensteinRule_distance_and_check :
  (∀ (A : Type) (dec : EqDecision A) (a b : list A),
     distance_list a b = Some (lev a b))
  ∧ (∀ a b : string, distance a b = Some (lev (chars a) (chars b)))
  ∧ (∀ a b : string, distance a b = distance b a)
  ∧ (∀ a b : string, distance a b = Some 0%nat ↔ a = b)
  ∧ (∀ a : string,
       distance a "" = Some (length (chars a))
       ∧ distance "" a = Some (length (chars a)))
  ∧ distance "" "" = Some 0%nat
  ∧ distance "abc" "abc" = Some 0%nat
  ∧ distance "kitten" "sitting" = Some 3%nat
  ∧ (∀ (texts : arg) (max_distance : Z) (m : Message),
       check (init texts max_distance) m = Some true
       ↔ ∃ (t : string) (d : nat),
           t ∈ match texts with ArgList l => l | ArgStr s => [s] end
           ∧ distance (text m) t = Some d ∧ (Z.of_nat d ≤ max_distance)%Z)
  ∧ (∀ (self : t) (m : Message),
       check self m = Some true ∨ check self m = Some false).
Proof.
  split; [intros A dec a b; apply distance_list_lev |].
  split; [exact distance_lev |].
  split; [intros a b; by rewrite !distance_lev, lev_sym |].
  split.
  { intros a b. rewrite distance_lev. split.
    - intros Hz. injection Hz as Hz. apply lev_zero in Hz.
      rewrite <- (String.string_of_list_ascii_of_string a),
              <- (String.string_of_list_ascii_of_string b).
      by rewrite Hz.
    - intros ->. by rewrite lev_diag. }
  split.
  { intros a. rewrite !distance_lev. simpl chars.
    by rewrite lev_nil_l, lev_nil_r. }
  split; [by vm_compute |]. split; [by vm_compute |]. split; [by vm_compute |].
  split.
  - intros texts max_distance m. unfold check.
    rewrite LevensteinRule_check_loop_spec.
    replace (levenstein_texts (init texts max_distance))
      with (match texts with ArgList l => l | ArgStr s => [s] end)
      by (by destruct texts).
    replace (LevensteinRule.max_distance (init texts max_distance))
      with max_distance by (by destruct texts).
    split.
    + intros Heq. injection Heq as Heq. apply bool_decide_eq_true in Heq.
      apply Exists_exists in Heq as (t & Hin & Hle).
      exists t, (lev (chars (text m)) (chars t)). by rewrite distance_lev.
    + intros (t & d & Hin & Hd & Hle). f_equal. apply bool_decide_eq_true.
      apply Exists_exists. exists t. split; [done |].
      rewrite distance_lev in Hd. by simplify_eq.
  - intros self m. unfold check. rewrite LevensteinRule_check_loop_spec.
    case_bool_decide; [by left | by right].
Qed.

End LevensteinRuleFacts.

(** ** The long-poll loop *)

Section PollingFacts.
Import UserPolling.
Context {W : Type} `{Env W}.

(** Unfolding one pass of the loop. *)
Lemma loop_S fuel (self : UserPolling.t) (s : Server) (w : W) :
  stop w = false →
  loop (S fuel) self s w
  = let '(self1, s1, w1, acts) := iteration self s w in
    (acts ++ (loop fuel self1 s1 w1).1, (loop fuel self1 s1 w1).2).
Proof.
  intros Hstop. simpl. rewrite Hstop.
  destruct (iteration self s w) as [[[self1 s1] w1] acts].
  by destruct (loop fuel self1 s1 w1).
Qed.

(** Every trace of the loop is a sequence of passes. *)
Lemma loop_passes fuel : ∀ (self : UserPolling.t) (s : Server) (w : W),
  passes s (loop fuel self s w).1.
Proof.
  induction fuel as [| fuel IH]; intros self s w; [constructor |].
  destruct (stop w) eqn:Hstop; [simpl; rewrite Hstop; constructor |].
  rewrite loop_S by done. unfold iteration.
  destruct (get_event self s w) as [w1 [event | e]]; simpl.
  - destruct (Py.truthy_opt_int (failed event)) eqn:Hfailed.
    + destruct (get_server self w1) as [[self1 w2] [s' | e]]; simpl.
      * by apply passes_expired.
      * by apply passes_expired_raised.
    + destruct (event_ts event) as [v |] eqn:Hts; simpl.
      * by eapply passes_yield.
      * by apply passes_no_ts.
  - by apply passes_poll_raised.
Qed.


(** What [listen] leaves behind: the first acquisition, then passes. *)
Lemma listen_trace fuel (self : UserPolling.t) (w : W) :
  (∃ e, (listen fuel self w).1 = [GetServer (Raise e)])
  ∨ (∃ s rest, (listen fuel self w).1 = GetServer (Ok s) :: rest ∧ passes s rest).
Proof.
  unfold listen. destruct (get_server self w) as [[self1 w1] [s | e]].
  - right. pose proof (loop_passes fuel self1 s w1) as Hp.
    destruct (loop fuel self1 s w1) as [rest st]. by exists s, rest.
  - left. by exists e.
Qed.


(** *** Positions in a sequence of passes *)







(** *** The claims about [listen] *)



End PollingFacts.

(** A run of [listen] against the scripted world. *)
Example listen_example :
  UserPolling.listen 6 UserPolling.Example.poller UserPolling.Example.world
  = (let open := UserPolling.Example.s0 in
     let fresh := UserPolling.Example.s1 in
     [ UserPolling.GetServer (Ok open);
       UserPolling.GetEvent open (Raise UserPolling.Example.timeout);
       UserPolling.Handle UserPolling.Example.timeout;
       UserPolling.GetEvent open (Ok UserPolling.Example.expired);
       UserPolling.GetServer (Ok fresh);
       UserPolling.GetEvent fresh (Ok UserPolling.Example.update);
       UserPolling.Yield UserPolling.Example.update ],
     UserPolling.Returned
       {| UserPolling.polls := []; UserPolling.sessions := [];
          UserPolling.handled := [UserPolling.Example.timeout] |}).
Proof. reflexivity. Qed.

(** The same when the re-acquisition fails: the handler is given the
    exception of [get_server], and the loop goes on with the session it
    had. *)
Example listen_example_reacquisition_fails :
  (UserPolling.listen 6 UserPolling.Example.poller UserPolling.Example.world').1
  = (let open := UserPolling.Example.s0 in
     [ UserPolling.GetServer (Ok open);
       UserPolling.GetEvent open (Ok UserPolling.Example.expired);
       UserPolling.GetServer (Raise (Raised "api down"));
       UserPolling.Handle (Raised "api down");
       UserPolling.GetEvent open (Ok UserPolling.Example.update);
       UserPolling.Yield UserPolling.Example.update ]).
Proof. reflexivity. Qed.



(** ** The labeler *)

Section LabelerFacts.
Import BotLabeler.

(** *** [load] *)

Lemma dict_update_lookup {V} (d other : gmap string V) (k : string) :
  dict_update d other !! k
  = match other !! k with
    | Some v => Some v
    | None => d !! k
    end.
Proof.
  unfold dict_update. rewrite lookup_union.
  destruct (other !! k), (d !! k); done.
Qed.

(** C6, as the code has it.  [load] appends the handlers of the
    message view, the middlewares of the message view and the
    middlewares of the raw-event view of the loaded labeler after the
    labeler's own, in their order.  The handlers of the raw-event view
    are a dict with one entry per event name: an entry of the loaded
    labeler takes the place of the labeler's own entry for that event,
    and the labeler's entries for other events stay. *)
Theorem load_appends_and_updates (self labeler : BotLabeler.t) :
  handlers (message_view (load self labeler))
  = handlers (message_view self) ++ handlers (message_view labeler)
  ∧ middlewares (message_view (load self labeler))
    = middlewares (message_view self) ++ middlewares (message_view labeler)
  ∧ raw_middlewares (raw_event_view (load self labeler))
    = raw_middlewares (raw_event_view self)
        ++ raw_middlewares (raw_event_view labeler)
  ∧ (∀ event : string,
       raw_handlers (raw_event_view (load self labeler)) !! event
       = match raw_handlers (raw_event_view labeler) !! event with
         | Some basement => Some basement
         | None => raw_handlers (raw_event_view self) !! event
         end)
  ∧ custom_rules (load self labeler) = custom_rules self
  ∧ auto_rules (load self labeler) = auto_rules self
  ∧ rule_config (load self labeler) = rule_config self.
Proof.
  repeat split; try reflexivity.
  intros event. simpl. apply dict_update_lookup.
Qed.

(** C6, as stated, fails for the raw-event view: [R] and [F] both have
    a handler for ["message_new"]; after [R.load(F)] the handler of
    [R] is gone and the one of [F] stands in its place. *)
Lemma load_replaces_raw_handler :
  raw_handlers (raw_event_view Example.R) !! "message_new"
  = Some (Example.basement "on_new_R")
  ∧ raw_handlers (raw_event_view (load Example.R Example.F)) !! "message_new"
    = Some (Example.basement "on_new_F")
  ∧ ¬ (∀ (self labeler : BotLabeler.t) (event : string) basement,
         raw_handlers (raw_event_view self) !! event = Some basement →
         raw_handlers (raw_event_view (load self labeler)) !! event
         = Some basement).
Proof.
  assert (raw_handlers (raw_event_view Example.R) !! "message_new"
          = Some (Example.basement "on_new_R")) as HR by by vm_compute.
  assert (raw_handlers (raw_event_view (load Example.R Example.F)) !! "message_new"
          = Some (Example.basement "on_new_F")) as HF by by vm_compute.
  split; [done |]. split; [done |].
  intros Hkeep. specialize (Hkeep Example.R Example.F _ _ HR).
  rewrite HF in Hkeep. discriminate.
Qed.

(** *** Custom rules at registration *)

Section Registering.
Context `{Collaborators}.

(** A keyword the registry does not know makes the comprehension of
    [get_custom_rules] raise, whatever the other keywords are. *)
Lemma get_custom_rules_items_unknown registry config items (k : string) :
  k ∈ items.*1 → registry !! k = None →
  raises (get_custom_rules_items registry config items).
Proof.
  intros Hin Hk. induction items as [| [k' v] items IH]; simpl in *.
  - by apply elem_of_nil in Hin.
  - unfold subscript. destruct (registry !! k') as [cls |] eqn:Hk'; simpl.
    + destruct (construct cls config v) as [rule | e]; simpl; [| by eexists].
      apply elem_of_cons in Hin as [-> | Hin]; [congruence |].
      destruct (IH Hin) as [e ->]. simpl. by eexists.
    + by eexists.
Qed.

Lemma get_custom_rules_unknown self st custom (k : string) :
  k ∈ custom.*1 → custom_rules_dict self st !! k = None →
  raises (get_custom_rules self st custom).
Proof. apply get_custom_rules_items_unknown. Qed.

Lemma message_decorator_unknown first rules blocking custom func self st
    (k : string) :
  k ∈ custom.*1 → custom_rules_dict self st !! k = None →
  (message_decorator first rules blocking custom func self st).1 = self
  ∧ raises (message_decorator first rules blocking custom func self st).2.
Proof.
  intros Hin Hk. unfold message_decorator.
  destruct (get_custom_rules_unknown self st custom k Hin Hk) as [e ->].
  split; [done | by eexists].
Qed.

(** C8, as the code has it.  When a keyword of a registration is
    not a key of the registry, applying the decorator returned by
    [message], [chat_message] or [private_message], or by
    [raw_event] called with one event name or with a non-empty list
    of them, raises and leaves the labeler as it was: no handler is
    stored that could meet the unknown name at dispatch. *)
Theorem registration_with_unknown_rule_raises
    (self : BotLabeler.t) (st : State)
    (rules : list ShortenRule) (blocking : bool)
    (custom_rules : list (string * Value)) (func : Func) (k : string) :
  k ∈ custom_rules.*1 →
  custom_rules_dict self st !! k = None →
  ((message rules blocking custom_rules func self st).1 = self
   ∧ raises (message rules blocking custom_rules func self st).2)
  ∧ ((chat_message rules blocking custom_rules func self st).1 = self
     ∧ raises (chat_message rules blocking custom_rules func self st).2)
  ∧ ((private_message rules blocking custom_rules func self st).1 = self
     ∧ raises (private_message rules blocking custom_rules func self st).2)
  ∧ (∀ (event : EventArg) (dataclass : DataClass),
       event ≠ EventList [] →
       (raw_event event dataclass rules custom_rules func self st).1 = self
       ∧ raises (raw_event event dataclass rules custom_rules func self st).2).
Proof.
  intros Hin Hk.
  split; [by eapply message_decorator_unknown |].
  split; [by eapply message_decorator_unknown |].
  split; [by eapply message_decorator_unknown |].
  intros event dataclass Hne.
  destruct (get_custom_rules_unknown self st custom_rules k Hin Hk) as [e He].
  unfold raw_event.
  destruct event as [ev | [| ev evs]]; [| done |]; simpl; rewrite He;
    (split; [done | by eexists]).
Qed.

End Registering.

(** C8, as stated, fails for [raw_event] with an empty list of
    events: the loop body, which holds the registry lookup, never
    runs, and the decorator returns the function. *)
Lemma raw_event_without_events_does_not_raise :
  let custom_rules := [("no_such_rule", VInt 1)] in
  custom_rules_dict Example.fresh Example.st !! "no_such_rule" = None
  ∧ raw_event (H := plain_collaborators) (EventList []) "dict" []
      custom_rules "handler" Example.fresh Example.st
    = (Example.fresh, Ok "handler")
  ∧ ¬ raises (raw_event (H := plain_collaborators) (EventList []) "dict" []
                custom_rules "handler" Example.fresh Example.st).2.
Proof.
  split; [by vm_compute |]. split; [reflexivity |].
  intros [e He]. simpl in He. discriminate.
Qed.

(** The dict a registration of the example cannot find its rule in. *)
Lemma registration_with_unknown_rule_raises_witness :
  let custom_rules := [("no_such_rule", VInt 1)] in
  "no_such_rule" ∈ custom_rules.*1
  ∧ custom_rules_dict Example.fresh Example.st !! "no_such_rule" = None
  ∧ raises (message (H := plain_collaborators) [] true custom_rules "handler"
              Example.fresh Example.st).2.
Proof.
  assert ("no_such_rule" ∈ [("no_such_rule", VInt 1)].*1) as Hin
    by (simpl; left).
  assert (custom_rules_dict Example.fresh Example.st !! "no_such_rule" = None)
    as Hk by by vm_compute.
  split; [exact Hin |]. split; [exact Hk |].
  exact (proj2 (proj1 (registration_with_unknown_rule_raises
                         (H := plain_collaborators)
                         Example.fresh Example.st [] true
                         [("no_such_rule", VInt 1)] "handler"
                         "no_such_rule" Hin Hk))).
Defined.

(** *** The registry *)

Lemma init_CUSTOM_RULES kw st : CUSTOM_RULES (init kw st).2 = CUSTOM_RULES st.
Proof. reflexivity. Qed.

Lemma init_custom_rules kw st : custom_rules (init kw st).1 = CUSTOM_RULES st.
Proof. reflexivity. Qed.

Lemma init_heap kw st :
  heap (init kw st).2 !! CUSTOM_RULES st
  = (λ d, dict_update d (default ∅ (kw_custom_rules kw)))
      <$> heap st !! CUSTOM_RULES st.
Proof. simpl. apply lookup_alter_eq. Qed.

Lemma constructed_CUSTOM_RULES kws : ∀ st,
  CUSTOM_RULES (constructed kws st) = CUSTOM_RULES st.
Proof.
  induction kws as [| kw kws IH]; intros st; [done |].
  simpl. by rewrite IH.
Qed.

Lemma init_allocated kw st :
  is_Some (heap st !! CUSTOM_RULES st) →
  is_Some (heap (init kw st).2 !! CUSTOM_RULES (init kw st).2).
Proof.
  intros Hst. change (CUSTOM_RULES (init kw st).2) with (CUSTOM_RULES st).
  rewrite init_heap. by apply fmap_is_Some.
Qed.

Lemma constructed_allocated kws : ∀ st,
  is_Some (heap st !! CUSTOM_RULES st) →
  is_Some (heap (constructed kws st) !! CUSTOM_RULES (constructed kws st)).
Proof.
  induction kws as [| kw kws IH]; intros st Hst; [done |].
  simpl. apply IH. by apply init_allocated.
Qed.

(** Entries once in the registry stay through later constructions
    unless a later constructor is given the same key. *)
Lemma init_keeps_entries kw st (k : string) c :
  default ∅ (kw_custom_rules kw) !! k = None →
  default ∅ (heap st !! CUSTOM_RULES st) !! k = Some c →
  default ∅ (heap (init kw st).2 !! CUSTOM_RULES st) !! k = Some c.
Proof.
  intros Hkw Hc. rewrite init_heap.
  destruct (heap st !! CUSTOM_RULES st) as [d |]; simpl in *; [| done].
  by rewrite dict_update_lookup, Hkw.
Qed.

(** C9.  Start from the loaded module and construct labelers in any
    number, then [L1], then any number more, then [L2] with custom
    rules.  [L1] and [L2] hold the same reference, the one bound to
    [CUSTOM_RULES]; every custom rule given to the constructor of [L2]
    is found through [L1], constructed earlier, as well as through
    [L2], and is in the module-level dict. *)
Theorem custom_rules_registry_is_shared
    (before between : list Kwargs) (kw1 kw2 : Kwargs) :
  let st0 := constructed before module_loaded in
  let L1 := (init kw1 st0).1 in
  let st1 := constructed between (init kw1 st0).2 in
  let L2 := (init kw2 st1).1 in
  let st2 := (init kw2 st1).2 in
  custom_rules L1 = CUSTOM_RULES st2
  ∧ custom_rules L2 = CUSTOM_RULES st2
  ∧ ∀ (k : string) (c : RuleClass),
      default ∅ (kw_custom_rules kw2) !! k = Some c →
      custom_rules_dict L1 st2 !! k = Some c
      ∧ custom_rules_dict L2 st2 !! k = Some c
      ∧ default ∅ (heap st2 !! CUSTOM_RULES st2) !! k = Some c.
Proof.
  intros st0 L1 st1 L2 st2.
  assert (CUSTOM_RULES st0 = 0%nat) as H0
    by (unfold st0; by rewrite constructed_CUSTOM_RULES).
  assert (CUSTOM_RULES st1 = 0%nat) as H1
    by (unfold st1; by rewrite constructed_CUSTOM_RULES, init_CUSTOM_RULES).
  assert (CUSTOM_RULES st2 = 0%nat) as H2 by (unfold st2; by rewrite init_CUSTOM_RULES).
  assert (custom_rules L1 = 0%nat) as HL1 by (unfold L1; by rewrite init_custom_rules).
  assert (custom_rules L2 = 0%nat) as HL2 by (unfold L2; by rewrite init_custom_rules).
  split; [congruence |]. split; [congruence |].
  intros k c Hk.
  assert (default ∅ (heap st2 !! 0%nat) !! k = Some c) as Hfound.
  { assert (is_Some (heap st1 !! CUSTOM_RULES st1)) as [d Hd].
    { apply constructed_allocated, init_allocated, constructed_allocated.
      by eexists. }
    rewrite <- H1. unfold st2. rewrite init_heap, Hd. simpl.
    by rewrite dict_update_lookup, Hk. }
  unfold custom_rules_dict. rewrite HL1, HL2, H2. done.
Qed.

(** A rule given to a later labeler is found through an earlier one. *)
Lemma custom_rules_registry_is_shared_witness :
  let L1 := (init Example.no_kwargs module_loaded).1 in
  let st2 := (init Example.mine (init Example.no_kwargs module_loaded).2).2 in
  default ∅ (kw_custom_rules Example.mine) !! "mine" = Some (UserRule "MyRule")
  ∧ custom_rules_dict L1 st2 !! "mine" = Some (UserRule "MyRule").
Proof.
  assert (default ∅ (kw_custom_rules Example.mine) !! "mine"
          = Some (UserRule "MyRule")) as Hk by by vm_compute.
  split; [exact Hk |].
  exact (proj1 (proj2 (proj2 (custom_rules_registry_is_shared
                                [] [] Example.no_kwargs Example.mine))
                  "mine" (UserRule "MyRule") Hk)).
Defined.

(** *** [vbml_ignore_case] *)

Lemma flags_never_set `{Collaborators} (st : State) (self : BotLabeler.t) (c : call) :
  rule_config self !! "flags" = None →
  rule_config (after_call st self c) !! "flags" = None.
Proof.
  intros Hnone. destruct c; simpl.
  - unfold set_vbml_ignore_case, subscript.
    destruct (rule_config self !! "vbml_flags") as [[f | p] |]; simpl; try done.
    by rewrite lookup_insert_ne.
  - by rewrite lookup_insert_ne.
  - by rewrite lookup_insert_ne.
  - unfold message, message_decorator.
    by destruct (get_custom_rules self st custom_rules0).
  - unfold chat_message, message_decorator.
    by destruct (get_custom_rules self st custom_rules0).
  - unfold private_message, message_decorator.
    by destruct (get_custom_rules self st custom_rules0).
  - unfold raw_event.
    generalize (match event with EventStr e => [e] | EventList es => es end).
    intros events. revert self Hnone.
    induction events as [| e events IH]; intros self Hnone; simpl; [done |].
    destruct (get_custom_rules self st custom_rules0); [| done].
    by apply IH.
  - done.
Qed.

(** C10.  A labeler as the constructor leaves it has exactly the keys
    ["vbml_flags"] and ["vbml_patcher"] in its rule config, and reading
    [vbml_ignore_case] raises [KeyError("flags")].  No call of the
    class changes that: after any sequence of its setters,
    registrations and loads the key ["flags"] is still missing and the
    getter still raises. *)
Theorem vbml_ignore_case_raises_KeyError `{Collaborators}
    (kwargs : Kwargs) (st : State) (calls : list (State * call)) :
  dom (rule_config (init kwargs st).1) = {["vbml_flags"; "vbml_patcher"]}
  ∧ vbml_ignore_case (init kwargs st).1 = Raise (KeyError "flags")
  ∧ rule_config (after_calls (init kwargs st).1 calls) !! "flags" = None
  ∧ vbml_ignore_case (after_calls (init kwargs st).1 calls)
    = Raise (KeyError "flags").
Proof.
  assert (∀ self, rule_config self !! "flags" = None →
                  rule_config (after_calls self calls) !! "flags" = None) as Hinv.
  { induction calls as [| [st' c] calls IH]; intros self Hnone; [done |].
    simpl. apply IH. by apply flags_never_set. }
  assert (rule_config (init kwargs st).1 !! "flags" = None) as Hfresh by done.
  split; [| split; [| split]].
  - simpl. rewrite dom_insert_L, dom_singleton_L. set_solver.
  - unfold vbml_ignore_case, subscript. by rewrite Hfresh.
  - by apply Hinv.
  - unfold vbml_ignore_case, subscript. by rewrite (Hinv _ Hfresh).
Qed.

End LabelerFacts.


(* ===================================================================== *)
(** * Part III.  Further properties of the code                          *)
(* ===================================================================== *)

(** ** The edit distance as a metric *)

Section LevMetric.
Import UserRules UserRules.LevensteinRule.
Context {A : Type} `{EqDecision A}.
Implicit Types a b c : list A.
Local Open Scope nat_scope.

Lemma lev_lower a : ∀ b, length a - length b ≤ lev a b ∧ length b - length a ≤ lev a b.
Proof.
  induction a as [| x a IHa]; intros b.
  - rewrite lev_nil_l. simpl. lia.
  - induction b as [| y b IHb].
    + rewrite lev_nil_r. simpl. lia.
    + rewrite lev_cons. simpl length.
      pose proof (IHa (y :: b)) as H1. pose proof (IHa b) as H2.
      simpl length in *. lia.
Qed.

Lemma lev_upper a : ∀ b, lev a b ≤ length a `max` length b.
Proof.
  induction a as [| x a IHa]; intros b.
  - rewrite lev_nil_l. simpl. lia.
  - destruct b as [| y b].
    + rewrite lev_nil_r. simpl. lia.
    + rewrite lev_cons. simpl length.
      pose proof (IHa b). pose proof (cost_le_1 x y). lia.
Qed.

Lemma cost_triangle (x y z : A) : cost x z ≤ cost x y + cost y z.
Proof. unfold cost. repeat case_decide; try lia. congruence. Qed.

Lemma lev_triangle_aux (n : nat) : ∀ a b c,
  length a + length b + length c ≤ n → lev a c ≤ lev a b + lev b c.
Proof.
  induction n as [| n IH]; intros a b c Hn.
  - destruct a, b, c; simpl in *; lia.
  - destruct a as [| x a].
    { rewrite !lev_nil_l. pose proof (lev_lower b c). lia. }
    destruct c as [| z c].
    { rewrite !lev_nil_r. pose proof (lev_lower (x :: a) b). lia. }
    destruct b as [| y b].
    { rewrite lev_nil_r, lev_nil_l.
      pose proof (lev_upper (x :: a) (z :: c)). lia. }
    simpl in Hn.
    pose proof (IH a (y :: b) (z :: c)) as I1.
    pose proof (IH (x :: a) (y :: b) c) as I2.
    pose proof (IH (x :: a) b (z :: c)) as I3.
    pose proof (IH (x :: a) b c) as I4.
    pose proof (IH a b (z :: c)) as I5.
    pose proof (IH a b c) as I6.
    simpl length in *.
    specialize (I1 ltac:(lia)). specialize (I2 ltac:(lia)).
    specialize (I3 ltac:(lia)). specialize (I4 ltac:(lia)).
    specialize (I5 ltac:(lia)). specialize (I6 ltac:(lia)).
    pose proof (cost_triangle x y z).
    pose proof (lev_cons x z a c). pose proof (lev_cons x y a b).
    pose proof (lev_cons y z b c).
    lia.
Qed.

Lemma lev_triangle a b c : lev a c ≤ lev a b + lev b c.
Proof. by eapply lev_triangle_aux. Qed.

(** One more character at the front costs at most one edit. *)
Lemma lev_cons_l_le x a : lev (x :: a) a ≤ 1.
Proof.
  destruct a as [| y a]; [done |].
  rewrite lev_cons, lev_diag. lia.
Qed.

(** A common first character can be dropped. *)
Lemma lev_cons_same x a b : lev (x :: a) (x :: b) = lev a b.
Proof.
  rewrite lev_cons. unfold cost. rewrite decide_True by done.
  pose proof (lev_triangle a (x :: b) b) as H1.
  pose proof (lev_triangle a (x :: a) b) as H2.
  pose proof (lev_cons_l_le x b). pose proof (lev_cons_l_le x a).
  rewrite (lev_sym a (x :: a)) in H2. lia.
Qed.

Lemma lev_app_prefix p a b : lev (p ++ a) (p ++ b) = lev a b.
Proof.
  induction p as [| x p IH]; [done |].
  rewrite <- !app_comm_cons. by rewrite lev_cons_same.
Qed.

Lemma lev_snoc_l_le x a : lev (a ++ [x]) a ≤ 1.
Proof.
  induction a as [| y a IH]; [done |].
  change ((y :: a) ++ [x]) with (y :: (a ++ [x])). by rewrite lev_cons_same.
Qed.

(** A common last character can be dropped. *)
Lemma lev_snoc_same x a b : lev (a ++ [x]) (b ++ [x]) = lev a b.
Proof.
  rewrite lev_snoc. unfold cost. rewrite decide_True by done.
  pose proof (lev_triangle a (a ++ [x]) b) as H1.
  pose proof (lev_triangle a (b ++ [x]) b) as H2.
  pose proof (lev_snoc_l_le x a). pose proof (lev_snoc_l_le x b).
  rewrite (lev_sym a (a ++ [x])) in H1. lia.
Qed.

Lemma lev_app_suffix s : ∀ a b, lev (a ++ s) (b ++ s) = lev a b.
Proof.
  induction s as [| x s IH] using rev_ind; intros a b.
  - by rewrite !app_nil_r.
  - by rewrite !app_assoc, lev_snoc_same.
Qed.

(** A common prefix and a common suffix do not count. *)
Lemma lev_app_frame p s a b : lev (p ++ a ++ s) (p ++ b ++ s) = lev a b.
Proof. by rewrite lev_app_prefix, lev_app_suffix. Qed.

End LevMetric.

(** ** [LevensteinRule.distance] and [check] on strings *)

Section DistanceFacts.
Import UserRules UserRules.LevensteinRule.

Local Abbreviation chars := String.list_ascii_of_string.

Lemma chars_length (a : string) : length (chars a) = String.length a.
Proof. induction a as [| c a IH]; simpl; congruence. Qed.

Lemma chars_app (a b : string) : chars (a +:+ b) = chars a ++ chars b.
Proof.
  induction a as [| c a IH]; [done |].
  simpl. f_equal. exact IH.
Qed.

Lemma chars_inj (a b : string) : chars a = chars b → a = b.
Proof.
  intros Heq.
  rewrite <- (String.string_of_list_ascii_of_string a),
          <- (String.string_of_list_ascii_of_string b).
  by rewrite Heq.
Qed.

(** X1.  [distance] lies between the difference of the lengths of its
    operands and the larger of the two lengths. *)
Theorem distance_length_bounds (a b : string) :
  ∃ d : nat,
    distance a b = Some d
    ∧ (String.length a - String.length b ≤ d)%nat
    ∧ (String.length b - String.length a ≤ d)%nat
    ∧ (d ≤ String.length a `max` String.length b)%nat.
Proof.
  exists (lev (chars a) (chars b)). split; [apply distance_lev |].
  pose proof (lev_lower (chars a) (chars b)) as [Hl1 Hl2].
  pose proof (lev_upper (chars a) (chars b)) as Hu.
  rewrite !chars_length in *. done.
Qed.

(** X2.  [distance] obeys the triangle inequality. *)
Theorem distance_triangle (a b c : string) :
  ∃ dab dbc dac : nat,
    distance a b = Some dab ∧ distance b c = Some dbc
    ∧ distance a c = Some dac ∧ (dac ≤ dab + dbc)%nat.
Proof.
  exists (lev (chars a) (chars b)), (lev (chars b) (chars c)),
         (lev (chars a) (chars c)).
  rewrite !distance_lev. repeat split. apply lev_triangle.
Qed.

(** X3.  A prefix and a suffix that the operands share do not change
    [distance]. *)
Theorem distance_common_prefix_suffix (p s a b : string) :
  distance (p +:+ a +:+ s) (p +:+ b +:+ s) = distance a b.
Proof. by rewrite !distance_lev, !chars_app, lev_app_frame. Qed.

(** The three single edits, between a prefix [p] and a suffix [s]. *)
Lemma distance_substitution (p s : string) (x y : Ascii.ascii) :
  distance (p +:+ String x s) (p +:+ String y s)
  = Some (if decide (x = y) then 0 else 1)%nat.
Proof.
  change (String x s) with (String x "" +:+ s).
  change (String y s) with (String y "" +:+ s).
  rewrite distance_common_prefix_suffix, distance_lev. simpl.
  unfold cost. case_decide; done.
Qed.

Lemma distance_insertion (p s : string) (x : Ascii.ascii) :
  distance (p +:+ String x s) (p +:+ s) = Some 1%nat.
Proof.
  change (String x s) with (String x "" +:+ s).
  change (p +:+ s) with (p +:+ "" +:+ s).
  by rewrite distance_common_prefix_suffix, distance_lev.
Qed.

Lemma check_within (self : t) (m : Message) (t0 : string) :
  t0 ∈ levenstein_texts self →
  (Z.of_nat (lev (chars (text m)) (chars t0)) ≤ max_distance self)%Z →
  check self m = Some true.
Proof.
  intros Hin Hle. unfold check. rewrite LevensteinRule_check_loop_spec.
  f_equal. apply bool_decide_eq_true, Exists_exists. by exists t0.
Qed.

Lemma check_true_inv (self : t) (m : Message) :
  check self m = Some true →
  ∃ t0, t0 ∈ levenstein_texts self
        ∧ (Z.of_nat (lev (chars (text m)) (chars t0)) ≤ max_distance self)%Z.
Proof.
  unfold check. rewrite LevensteinRule_check_loop_spec. intros Heq.
  injection Heq as Heq. apply bool_decide_eq_true in Heq.
  by apply Exists_exists in Heq.
Qed.

Lemma check_total (self : t) (m : Message) :
  check self m = Some true ∨ check self m = Some false.
Proof.
  unfold check. rewrite LevensteinRule_check_loop_spec.
  case_bool_decide; [by left | by right].
Qed.

Lemma levenstein_texts_init (a : arg) (d : Z) :
  levenstein_texts (init a d) = texts_of a ∧ max_distance (init a d) = d.
Proof. by destruct a. Qed.

(** X4.  A rule made without [max_distance] tolerates one typo: it
    matches a message whose text is a configured text with one
    character replaced, one character added or one character left out,
    at any position. *)
Theorem LevensteinRule_default_tolerates_one_edit
    (p s : string) (x y : Ascii.ascii) (m : Message) :
  (text m = p +:+ String x s →
   check (init_default (ArgStr (p +:+ String y s))) m = Some true)
  ∧ (text m = p +:+ String x s →
     check (init_default (ArgStr (p +:+ s))) m = Some true)
  ∧ (text m = p +:+ s →
     check (init_default (ArgStr (p +:+ String y s))) m = Some true).
Proof.
  repeat split; intros Htext.
  - apply (check_within _ _ (p +:+ String y s)); [simpl; left |].
    pose proof (distance_substitution p s x y) as Hd.
    rewrite distance_lev in Hd. injection Hd as Hd.
    rewrite Htext, Hd. simpl. case_decide; lia.
  - apply (check_within _ _ (p +:+ s)); [simpl; left |].
    pose proof (distance_insertion p s x) as Hd.
    rewrite distance_lev in Hd. injection Hd as Hd.
    rewrite Htext, Hd. simpl. lia.
  - apply (check_within _ _ (p +:+ String y s)); [simpl; left |].
    pose proof (distance_insertion p s y) as Hd.
    rewrite distance_lev in Hd. injection Hd as Hd.
    rewrite Htext, lev_sym, Hd. simpl. lia.
Qed.

(** X5.  With [max_distance = 0] the rule matches exactly the messages
    whose text is one of the configured texts. *)
Theorem LevensteinRule_zero_is_exact (a : arg) (m : Message) :
  check (init a 0) m = Some true ↔ text m ∈ texts_of a.
Proof.
  destruct (levenstein_texts_init a 0) as [Htexts Hmax]. split.
  - intros Hc. apply check_true_inv in Hc as (t0 & Hin & Hle).
    rewrite Htexts in Hin. rewrite Hmax in Hle.
    assert (lev (chars (text m)) (chars t0) = 0%nat) as Hz by lia.
    apply lev_zero, chars_inj in Hz. by rewrite Hz.
  - intros Hin. apply (check_within _ _ (text m)); [by rewrite Htexts |].
    rewrite Hmax, lev_diag. done.
Qed.

(** X6.  A match needs a configured text whose length differs from the
    length of the message text by at most [max_distance]; so a rule
    with a negative [max_distance], or with no texts, matches nothing. *)
Theorem LevensteinRule_needs_close_length (self : t) (m : Message) :
  (check self m = Some true →
   ∃ t0, t0 ∈ levenstein_texts self
         ∧ (Z.abs (Z.of_nat (String.length (text m)) - Z.of_nat (String.length t0))
            ≤ max_distance self)%Z)
  ∧ ((max_distance self < 0)%Z → check self m = Some false)
  ∧ (levenstein_texts self = [] → check self m = Some false).
Proof.
  split; [| split].
  - intros Hc. apply check_true_inv in Hc as (t0 & Hin & Hle).
    exists t0. split; [done |].
    pose proof (lev_lower (chars (text m)) (chars t0)) as [Hl1 Hl2].
    rewrite !chars_length in *. lia.
  - intros Hneg. destruct (check_total self m) as [Hc | Hc]; [| done].
    apply check_true_inv in Hc as (t0 & Hin & Hle). lia.
  - intros Hnil. destruct (check_total self m) as [Hc | Hc]; [| done].
    apply check_true_inv in Hc as (t0 & Hin & Hle).
    rewrite Hnil in Hin. by apply elem_of_nil in Hin.
Qed.

(** X7.  Raising [max_distance] or adding texts never loses a match. *)
Theorem LevensteinRule_monotone (self self' : t) (m : Message) :
  levenstein_texts self ⊆ levenstein_texts self' →
  (max_distance self ≤ max_distance self')%Z →
  check self m = Some true → check self' m = Some true.
Proof.
  intros Hsub Hle Hc. apply check_true_inv in Hc as (t0 & Hin & Hd).
  apply (check_within _ _ t0); [by apply Hsub | lia].
Qed.

End DistanceFacts.

(** The one-typo rule of X4 on an example. *)
Lemma LevensteinRule_default_tolerates_one_edit_witness :
  UserRules.text (UserRules.Example.saying "hexlo")
  = "he" +:+ String "x"%char "lo"
  ∧ UserRules.LevensteinRule.check
      (UserRules.LevensteinRule.init_default
         (UserRules.LevensteinRule.ArgStr "hello"))
      (UserRules.Example.saying "hexlo") = Some true.
Proof.
  split; [reflexivity |].
  apply (proj1 (LevensteinRule_default_tolerates_one_edit
                  "he" "lo" "x"%char "l"%char
                  (UserRules.Example.saying "hexlo"))).
  reflexivity.
Defined.

(** A match of a rule survives a larger threshold and more texts. *)
Lemma LevensteinRule_monotone_witness :
  let self := UserRules.LevensteinRule.init
                (UserRules.LevensteinRule.ArgStr "hello") 1 in
  let self' := UserRules.LevensteinRule.init
                 (UserRules.LevensteinRule.ArgList ["bye"; "hello"]) 2 in
  UserRules.LevensteinRule.check self (UserRules.Example.saying "hallo") = Some true
  ∧ UserRules.LevensteinRule.check self' (UserRules.Example.saying "hallo") = Some true.
Proof.
  split; [reflexivity |].
  apply (LevensteinRule_monotone
           (UserRules.LevensteinRule.init (UserRules.LevensteinRule.ArgStr "hello") 1)).
  - simpl. intros t Ht. apply list_elem_of_singleton in Ht as ->.
    right. left.
  - simpl. lia.
  - reflexivity.
Defined.

(** ** The other message rules *)

Section MoreRuleFacts.
Import UserRules.

Lemma string_app_length (a b : string) :
  String.length (a +:+ b) = (String.length a + String.length b)%nat.
Proof.
  induction a as [| c a IH]; [done |].
  simpl. f_equal. exact IH.
Qed.

Lemma CommandRule_check_loop_spec (cmd txt : string) (prefixes : list string) :
  CommandRule.check_loop cmd txt prefixes = true
  ↔ ∃ prefix, prefix ∈ prefixes ∧ txt = prefix +:+ cmd.
Proof.
  induction prefixes as [| p prefixes IH]; simpl.
  - split; [discriminate |]. intros (q & Hin & _). by apply elem_of_nil in Hin.
  - case_bool_decide as Hp.
    + split; [| done]. intros _. exists p. split; [left | done].
    + rewrite IH. split.
      * intros (q & Hin & Hq). exists q. split; [by right | done].
      * intros (q & Hin & Hq). apply elem_of_cons in Hin as [-> | Hin]; [done |].
        by exists q.
Qed.

(** X8.  [CommandRule] matches exactly when the text is one of the
    prefixes followed by the command.  Without prefixes, and also with
    an empty list of prefixes, the prefixes are ["!"] and ["/"]; the
    bare command then never matches. *)
Theorem CommandRule_matches (cmd : string) (prefixes : option (list string))
    (m : Message) :
  (CommandRule.check (CommandRule.init cmd prefixes) m = true
   ↔ ∃ prefix,
       prefix ∈ match prefixes with
                | Some (p :: rest) => p :: rest
                | _ => ["!"; "/"]
                end
       ∧ text m = prefix +:+ cmd)
  ∧ CommandRule.init cmd (Some []) = CommandRule.init cmd None
  ∧ (CommandRule.check (CommandRule.init cmd None) m = true
     ↔ text m = "!" +:+ cmd ∨ text m = "/" +:+ cmd)
  ∧ (text m = cmd → CommandRule.check (CommandRule.init cmd None) m = false).
Proof.
  assert (∀ ps, CommandRule.check (CommandRule.init cmd ps) m = true
                ↔ ∃ prefix,
                    prefix ∈ match ps with
                             | Some (p :: rest) => p :: rest
                             | _ => ["!"; "/"]
                             end
                    ∧ text m = prefix +:+ cmd) as Hspec.
  { intros ps. unfold CommandRule.check. rewrite CommandRule_check_loop_spec.
    by destruct ps as [[| p rest] |]. }
  assert (CommandRule.check (CommandRule.init cmd None) m = true
          ↔ text m = "!" +:+ cmd ∨ text m = "/" +:+ cmd) as Hdefault.
  { rewrite Hspec. split.
    - intros (q & Hin & Hq).
      apply elem_of_cons in Hin as [Heq | Hin]; [left; congruence |].
      apply list_elem_of_singleton in Hin. right. congruence.
    - intros [Hq | Hq].
      + exists "!". split; [left | done].
      + exists "/". split; [right; left | done]. }
  split; [apply Hspec |]. split; [done |]. split; [exact Hdefault |].
  intros Htext. apply not_true_is_false. rewrite Hdefault.
  intros [Hq | Hq]; rewrite Htext in Hq;
    apply (f_equal String.length) in Hq;
    rewrite string_app_length in Hq; simpl in Hq; lia.
Qed.

(** X9.  [PeerRule], [FromMeRule] and [FromUserRule] split the
    messages in two: the rule made with [True] (the default) matches
    exactly the messages the rule made with [False] rejects.
    [PeerRule(True)] matches when peer and sender differ,
    [FromMeRule(u, True)] when the sender is [u], [FromUserRule(True)]
    when the sender id is positive (0 counts as not a user). *)
Theorem flag_rules_are_complementary (m : Message) (user : Z) :
  (PeerRule.check (PeerRule.init (Some true)) m
     = negb (PeerRule.check (PeerRule.init (Some false)) m)
   ∧ PeerRule.init None = PeerRule.init (Some true)
   ∧ (PeerRule.check (PeerRule.init None) m = true ↔ peer_id m ≠ from_id m))
  ∧ (FromMeRule.check (FromMeRule.init user (Some true)) m
       = negb (FromMeRule.check (FromMeRule.init user (Some false)) m)
     ∧ FromMeRule.init user None = FromMeRule.init user (Some true)
     ∧ (FromMeRule.check (FromMeRule.init user None) m = true
        ↔ from_id m = user))
  ∧ (FromUserRule.check (FromUserRule.init (Some true)) m
       = negb (FromUserRule.check (FromUserRule.init (Some false)) m)
     ∧ FromUserRule.init None = FromUserRule.init (Some true)
     ∧ (FromUserRule.check (FromUserRule.init None) m = true
        ↔ 0 < from_id m)).
Proof.
  unfold PeerRule.check, FromMeRule.check, FromUserRule.check. simpl.
  repeat split; try (by case_bool_decide);
    try (intros Hb; by case_bool_decide).
Qed.

(** X10.  [StateGroupRule]: made from [None] it is the rule made from
    the empty list, and matches exactly the messages without a state;
    made from a non-empty list (or one class) it matches exactly the
    messages whose state belongs to one of the listed classes. *)
Theorem StateGroupRule_matches :
  StateGroupRule.init StateGroupRule.ArgNone
  = StateGroupRule.init (StateGroupRule.ArgList [])
  ∧ (∀ m : Message,
       StateGroupRule.check (StateGroupRule.init (StateGroupRule.ArgList [])) m = true
       ↔ state_peer m = None)
  ∧ (∀ (g : string) (l : list string) (m : Message),
       StateGroupRule.check
         (StateGroupRule.init (StateGroupRule.ArgList (g :: l))) m = true
       ↔ ∃ sp, state_peer m = Some sp ∧ state_group_name (state sp) ∈ g :: l)
  ∧ (∀ (g : string) (m : Message),
       StateGroupRule.check (StateGroupRule.init (StateGroupRule.ArgOne g)) m = true
       ↔ ∃ sp, state_peer m = Some sp ∧ state_group_name (state sp) = g).
Proof.
  split; [done |]. unfold StateGroupRule.check. simpl.
  split; [| split].
  - intros m. destruct (state_peer m) as [sp |]; simpl; [| done].
    split; discriminate.
  - intros g l m. destruct (state_peer m) as [sp |]; simpl.
    + rewrite bool_decide_eq_true. split.
      * intros Hin. by exists sp.
      * intros (sp' & Heq & Hin). by simplify_eq.
    + split; [discriminate |]. intros (sp' & Heq & _). discriminate.
  - intros g m. destruct (state_peer m) as [sp |]; simpl.
    + rewrite bool_decide_eq_true, list_elem_of_singleton. split.
      * intros Hin. by exists sp.
      * intros (sp' & Heq & Hin). by simplify_eq.
    + split; [discriminate |]. intros (sp' & Heq & _). discriminate.
Qed.

(** X12.  [StickerRule] looks at the first attachment only: the answer
    is the same when the other attachments are dropped, and a message
    without attachments never matches.  A rule made from one id [n]
    matches exactly the messages whose first attachment is the sticker
    [n]. *)
Theorem StickerRule_first_attachment_only (self : StickerRule.t) (m : Message) :
  (∀ first rest,
     attachments m = Some (first :: rest) →
     StickerRule.check self m
     = StickerRule.check self (with_attachments (Some [first]) m))
  ∧ (attachments m = None ∨ attachments m = Some [] →
     StickerRule.check self m = false)
  ∧ (∀ n : Z,
       StickerRule.check (StickerRule.init (StickerRule.ArgInt n)) m = true
       ↔ ∃ first rest st,
           attachments m = Some (first :: rest) ∧ sticker first = Some st
           ∧ sticker_id st = n).
Proof.
  split; [| split].
  - intros first rest Hm. unfold StickerRule.check. by rewrite Hm.
  - intros [Hm | Hm]; unfold StickerRule.check; by rewrite Hm.
  - intros n. rewrite StickerRule_check_spec. simpl. split.
    + intros (first & rest & st & Hm & Hst & [? | (v & Hin & Hv)]); [done |].
      apply list_elem_of_singleton in Hin as ->. simpl in Hv.
      by exists first, rest, st.
    + intros (first & rest & st & Hm & Hst & Hid).
      exists first, rest, st. repeat split; try done. right.
      exists (Py.PInt n). split; [set_solver | done].
Qed.

End MoreRuleFacts.

(** ** More about the long-poll loop *)

Section MorePollingFacts.
Import UserPolling.
Context {W : Type} `{Env W}.

(** X13.  [wait or 15] and [rps_delay or 0]: the wait of a poller is
    never 0; [None] and 0 both give 15 and any other value is kept.
    The delay is the value given, 0 when none is given. *)
Theorem init_wait_is_never_zero (api : bool) (uid wait rps_delay : option Z) :
  UserPolling.wait (UserPolling.init api uid wait rps_delay) ≠ 0
  ∧ UserPolling.wait (UserPolling.init api uid None rps_delay) = 15
  ∧ UserPolling.wait (UserPolling.init api uid (Some 0) rps_delay) = 15
  ∧ (∀ v, v ≠ 0 →
       UserPolling.wait (UserPolling.init api uid (Some v) rps_delay) = v)
  ∧ UserPolling.rps_delay (UserPolling.init api uid wait rps_delay)
    = default 0 rps_delay.
Proof.
  simpl. repeat split.
  - destruct wait as [v |]; simpl; [| done].
    destruct (v =? 0) eqn:Hv; [done | lia].
  - intros v Hv. simpl. destruct (v =? 0) eqn:Hz; [lia | done].
  - destruct rps_delay as [v |]; simpl; [| done].
    destruct (v =? 0) eqn:Hv; [lia | done].
Qed.

(** What [get_server] does to the object. *)
Lemma get_server_self (self self1 : UserPolling.t) (w w1 : W) r :
  get_server self w = (self1, w1, r) →
  _api self1 = _api self ∧ UserPolling.wait self1 = UserPolling.wait self
  ∧ UserPolling.rps_delay self1 = UserPolling.rps_delay self
  ∧ (is_Some (user_id self) → self1 = self)
  ∧ (∀ s, r = Ok s → is_Some (user_id self1) ∧ _api self1 = true).
Proof.
  unfold get_server, api. intros Hg.
  destruct self as [a uid wt rd]. simpl in *.
  destruct uid as [u |]; destruct a; simpl in *.
  - destruct (get_long_poll_server w) as [w2 r2]. simplify_eq.
    repeat split; eauto; intros [? ?]; done.
  - simplify_eq. repeat split; eauto; try done.
  - destruct (users_get w) as [w0 [uid | e]]; simpl in *.
    + destruct (get_long_poll_server w0) as [w2 r2]. simplify_eq.
      repeat split; eauto; intros [? ?]; done.
    + simplify_eq. repeat split; eauto; try done; intros [? ?]; done.
  - simplify_eq. repeat split; eauto; try done; intros [? ?]; done.
Qed.

(** X14.  A poller that was not given an API raises
    [NotImplementedError] from [listen] before any request is made:
    the world is as it was.  Once constructed, and with the user id
    known, [get_server] is the one request [messages.getLongPollServer]. *)
Theorem listen_without_api (fuel : nat) (self : UserPolling.t) (w : W) :
  (_api self = false →
   listen fuel self w
   = ([GetServer (Raise NotImplementedError)], Propagated NotImplementedError w))
  ∧ (is_Some (user_id self) →
     get_server (construct self) w
     = (construct self, (get_long_poll_server w).1, (get_long_poll_server w).2)).
Proof.
  split.
  - intros Hapi. unfold listen, get_server, api.
    destruct self as [a uid wt rd]. simpl in *. subst a.
    by destruct uid.
  - intros [uid Huid]. unfold get_server, api. simpl. rewrite Huid.
    by destruct (get_long_poll_server w).
Qed.

Lemma iteration_self (self self1 : UserPolling.t) (s s1 : Server) (w w1 : W) acts :
  iteration self s w = (self1, s1, w1, acts) →
  _api self1 = _api self ∧ UserPolling.wait self1 = UserPolling.wait self
  ∧ UserPolling.rps_delay self1 = UserPolling.rps_delay self
  ∧ (is_Some (user_id self) → self1 = self).
Proof.
  unfold iteration. intros Hit.
  destruct (get_event self s w) as [w0 [event | e]]; [| by simplify_eq].
  destruct (Py.truthy_opt_int (failed event)).
  - destruct (get_server self w0) as [[self2 w2] r] eqn:Hg.
    destruct (get_server_self _ _ _ _ _ Hg) as (? & ? & ? & ? & _).
    destruct r; by simplify_eq.
  - destruct (event_ts event); by simplify_eq.
Qed.

Lemma loop_self fuel : ∀ (self self' : UserPolling.t) (s s' : Server) (w w' : W),
  (loop fuel self s w).2 = Looping self' s' w' →
  is_Some (user_id self) → self' = self.
Proof.
  induction fuel as [| fuel IH]; intros self self' s s' w w' Hst Huid.
  - simpl in Hst. by simplify_eq.
  - destruct (stop w) eqn:Hstop; [simpl in Hst; by rewrite Hstop in Hst |].
    rewrite loop_S in Hst by done.
    destruct (iteration self s w) as [[[self1 s1] w1] acts] eqn:Hit.
    destruct (iteration_self _ _ _ _ _ _ _ Hit) as (_ & _ & _ & Hsame).
    specialize (Hsame Huid). subst self1. simpl in Hst. by eapply IH.
Qed.

(** X15.  While [listen] runs, the poller keeps its API, [wait] and
    [rps_delay]; its user id is known from the first acquisition on
    and never changes again.  A poller that starts with a user id is
    not changed by [listen] at all. *)
Theorem listen_keeps_the_poller (fuel : nat) (self self' : UserPolling.t)
    (w w' : W) (s' : Server) :
  (listen fuel self w).2 = Looping self' s' w' →
  _api self' = true ∧ _api self = true
  ∧ UserPolling.wait self' = UserPolling.wait self
  ∧ UserPolling.rps_delay self' = UserPolling.rps_delay self
  ∧ is_Some (user_id self')
  ∧ (is_Some (user_id self) → self' = self).
Proof.
  unfold listen. intros Hst.
  destruct (get_server self w) as [[self1 w1] [s | e]] eqn:Hg.
  - destruct (get_server_self _ _ _ _ _ Hg) as (Ha & Hw & Hr & Hsame & Hok).
    destruct (Hok s eq_refl) as [Huid Hapi].
    destruct (loop fuel self1 s w1) as [rest st] eqn:Hloop. simpl in Hst.
    assert ((loop fuel self1 s w1).2 = Looping self' s' w') as Hst'
      by by rewrite Hloop.
    pose proof (loop_self _ _ _ _ _ _ _ Hst' Huid) as ->.
    repeat split; try congruence. done.
  - simpl in Hst. discriminate.
Qed.

(** *** What is yielded, and with which session the loop polls *)

Lemma passes_yielded_answered s l : passes s l → yielded l = answered l.
Proof.
  induction 1 as [s | s e rest Hp IH | s event s' rest Hf Hp IH
                 | s event e rest Hf Hp IH | s event rest Hf Hts Hp IH
                 | s event v rest Hf Hts Hp IH];
    simpl; rewrite ?Hf, ?Hts; simpl; congruence.
Qed.

(** X16.  [listen] yields exactly the answers of its long-poll requests
    that did not raise, did not signal an expired session and carried
    a ["ts"]: each of them once, in the order they came. *)
Theorem listen_yields_the_answers (fuel : nat) (self : UserPolling.t) (w : W) :
  yielded (listen fuel self w).1 = answered (listen fuel self w).1.
Proof.
  destruct (listen_trace fuel self w) as [(e & ->) | (s & rest & -> & Hp)].
  - reflexivity.
  - simpl. by apply (passes_yielded_answered s).
Qed.

Lemma passes_session s l : passes s l → ∀ (i : nat) s' r,
  l !! i = Some (GetEvent s' r) →
  foldl session_step (Some s) (take i l) = Some s'.
Proof.
  induction 1 as [s | s e rest Hp IH | s event s' rest Hf Hp IH
                 | s event e rest Hf Hp IH | s event rest Hf Hts Hp IH
                 | s event v rest Hf Hts Hp IH];
    intros i s0 r Hi.
  - done.
  - destruct i as [| [| i]]; simpl in *; simplify_eq; [done |]. by eapply IH.
  - destruct i as [| [| i]]; simpl in *; simplify_eq; [done |]. by eapply IH.
  - destruct i as [| [| [| i]]]; simpl in *; simplify_eq; [done |]. by eapply IH.
  - destruct i as [| [| i]]; simpl in *; simplify_eq; [done |]. by eapply IH.
  - destruct i as [| [| i]]; simpl in *; simplify_eq; [done |].
    rewrite Hts. by eapply IH.
Qed.

(** X17.  Every long-poll request of a run is made with the session
    last returned by [get_server], in which the ["ts"] of each event
    yielded since has been written; server and key are never touched
    in between. *)
Theorem listen_polls_with_current_session (fuel : nat) (self : UserPolling.t)
    (w : W) (i : nat) (s : Server) (r : result Event) :
  (listen fuel self w).1 !! i = Some (GetEvent s r) →
  session_after (take i (listen fuel self w).1) = Some s.
Proof.
  intros Hi.
  destruct (listen_trace fuel self w) as [(e & Htr) | (s0 & rest & Htr & Hp)];
    rewrite Htr in *.
  { destruct i as [| i]; simpl in Hi; simplify_eq. }
  destruct i as [| i]; simpl in Hi; [simplify_eq |].
  unfold session_after. simpl. by eapply passes_session.
Qed.



(** *** Stopping *)

Lemma loop_returned fuel : ∀ (self : UserPolling.t) (s : Server) (w w' : W),
  (loop fuel self s w).2 = Returned w' → stop w' = true.
Proof.
  induction fuel as [| fuel IH]; intros self s w w' Hst; [done |].
  destruct (stop w) eqn:Hstop.
  - simpl in Hst. rewrite Hstop in Hst. simpl in Hst.
    injection Hst as <-. exact Hstop.
  - rewrite loop_S in Hst by done.
    destruct (iteration self s w) as [[[self1 s1] w1] acts]. simpl in Hst.
    by eapply IH.
Qed.

(** X19.  [listen] returns only when it finds [stop] set at the [while]
    test.  The flag is not looked at before the first acquisition: a
    poller stopped from the start still calls [get_server] once, then
    returns without a single long-poll request. *)
Theorem listen_stops_only_at_the_test (fuel : nat) (self : UserPolling.t) (w : W) :
  (∀ w', (listen fuel self w).2 = Returned w' → stop w' = true)
  ∧ (∀ self1 w1 s,
       get_server self w = (self1, w1, Ok s) → stop w1 = true →
       listen (S fuel) self w = ([GetServer (Ok s)], Returned w1)).
Proof.
  split.
  - intros w' Hst. unfold listen in Hst.
    destruct (get_server self w) as [[self1 w1] [s | e]]; [| done].
    destruct (loop fuel self1 s w1) as [rest st] eqn:Hloop. simpl in Hst.
    apply (loop_returned fuel self1 s w1). by rewrite Hloop.
  - intros self1 w1 s Hg Hstop. unfold listen. rewrite Hg. simpl.
    by rewrite Hstop.
Qed.

End MorePollingFacts.

(** ** More about the labeler *)

Section MoreLabelerFacts.
Import BotLabeler.

(** *** The rule config *)

Lemma testbit_IGNORECASE (n : Z) : Z.testbit IGNORECASE n = (n =? 1).
Proof.
  unfold IGNORECASE. destruct (Z.eqb_spec n 1) as [-> | Hn]; [done |].
  destruct (Z.neg_nonneg_cases n) as [Hneg | Hpos].
  - by apply Z.testbit_neg_r.
  - change 2 with (2 ^ 1). rewrite Z.pow2_bits_eqb by lia.
    apply Z.eqb_neq. lia.
Qed.

(** X20.  The [vbml_ignore_case] setter.  Given [True] it sets the
    IGNORECASE bit of ["vbml_flags"] and leaves the other bits alone.
    Given [False] it flips that bit: the flag is cleared when it was
    set, and set when it was clear, as on a labeler that has just been
    constructed.  The patcher is not touched. *)
Theorem set_vbml_ignore_case_bits (self : BotLabeler.t) (f : Z) (ignore_case : bool) :
  rule_config self !! "vbml_flags" = Some (Flags f) →
  ∃ self' f',
    set_vbml_ignore_case self ignore_case = Ok self'
    ∧ vbml_flags self' = Ok (Flags f')
    ∧ (∀ n, Z.testbit f' n
            = if n =? 1
              then (if ignore_case then true else negb (Z.testbit f 1))
              else Z.testbit f n)
    ∧ vbml_patcher self' = vbml_patcher self
    ∧ message_view self' = message_view self
    ∧ raw_event_view self' = raw_event_view self.
Proof.
  intros Hf. unfold set_vbml_ignore_case, subscript. rewrite Hf. simpl.
  eexists _, _. split; [reflexivity |]. split; [| split; [| split]].
  - unfold vbml_flags, subscript. simpl. by rewrite lookup_insert_eq.
  - intros n. destruct ignore_case; cbn [negb].
    + rewrite Z.lor_spec, testbit_IGNORECASE.
      destruct (Z.eqb_spec n 1); [apply orb_true_r | apply orb_false_r].
    + rewrite Z.lxor_spec, testbit_IGNORECASE.
      destruct (Z.eqb_spec n 1) as [-> | Hn].
      * apply xorb_true_r.
      * apply xorb_false_r.
  - unfold vbml_patcher, subscript. simpl. by rewrite lookup_insert_ne.
  - done.
Qed.

(** On a labeler as constructed, [vbml_ignore_case = False] turns the
    flag on. *)
Lemma set_vbml_ignore_case_bits_witness :
  rule_config Example.fresh !! "vbml_flags" = Some (Flags MULTILINE)
  ∧ ∃ self' f',
      set_vbml_ignore_case Example.fresh false = Ok self'
      ∧ vbml_flags self' = Ok (Flags f')
      ∧ Z.testbit f' 1 = true.
Proof.
  assert (rule_config Example.fresh !! "vbml_flags" = Some (Flags MULTILINE))
    as Hf by by vm_compute.
  split; [exact Hf |].
  destruct (set_vbml_ignore_case_bits Example.fresh MULTILINE false Hf)
    as (self' & f' & Hset & Hflags & Hbits & _).
  exists self', f'. split; [exact Hset |]. split; [exact Hflags |].
  rewrite (Hbits 1). reflexivity.
Defined.

(** X21.  The [vbml_flags] and [vbml_patcher] properties: what is set
    is what is read back, and setting one leaves the other as it was.
    Neither touches the views. *)
Theorem vbml_config_set_then_get (self : BotLabeler.t) (f : Z) (p : string) :
  vbml_flags (set_vbml_flags self f) = Ok (Flags f)
  ∧ vbml_patcher (set_vbml_patcher self p) = Ok (Patcher p)
  ∧ vbml_patcher (set_vbml_flags self f) = vbml_patcher self
  ∧ vbml_flags (set_vbml_patcher self p) = vbml_flags self
  ∧ vbml_flags (set_vbml_flags (set_vbml_flags self 0) f) = Ok (Flags f)
  ∧ message_view (set_vbml_flags self f) = message_view self
  ∧ raw_event_view (set_vbml_patcher self p) = raw_event_view self.
Proof.
  unfold vbml_flags, vbml_patcher, subscript. simpl.
  rewrite !lookup_insert_eq, !lookup_insert_ne by done. done.
Qed.

(** *** [load] as an operation *)

Lemma t_eq (x y : BotLabeler.t) :
  message_view x = message_view y → raw_event_view x = raw_event_view y →
  custom_rules x = custom_rules y → auto_rules x = auto_rules y →
  rule_config x = rule_config y → x = y.
Proof. destruct x, y. simpl. by intros -> -> -> -> ->. Qed.

(** X22.  Loading is associative: [a.load(b); a.load(c)] leaves [a] as
    loading into it a labeler that holds [b] with [c] loaded.  Loading
    a labeler without handlers and middlewares changes nothing. *)
Theorem load_assoc_and_unit (a b c : BotLabeler.t) (kwargs : Kwargs) (st : State) :
  load (load a b) c = load a (load b c)
  ∧ load a (init kwargs st).1 = a.
Proof.
  split.
  - apply t_eq; simpl; try done.
    + by rewrite !app_assoc.
    + unfold dict_update. by rewrite !app_assoc, (assoc_L (∪)).
  - apply t_eq; simpl; try done.
    + destruct (message_view a). simpl. by rewrite !app_nil_r.
    + destruct (raw_event_view a). simpl. unfold dict_update.
      by rewrite app_nil_r, (left_id_L ∅ (∪)).
Qed.

(** X23.  Loading a labeler into itself doubles its message handlers
    and its middlewares and leaves its raw-event handlers as they were. *)
Theorem load_self_doubles (a : BotLabeler.t) :
  handlers (message_view (load a a))
  = handlers (message_view a) ++ handlers (message_view a)
  ∧ length (handlers (message_view (load a a)))
    = (2 * length (handlers (message_view a)))%nat
  ∧ length (middlewares (message_view (load a a)))
    = (2 * length (middlewares (message_view a)))%nat
  ∧ length (raw_middlewares (raw_event_view (load a a)))
    = (2 * length (raw_middlewares (raw_event_view a)))%nat
  ∧ raw_handlers (raw_event_view (load a a)) = raw_handlers (raw_event_view a).
Proof.
  simpl. rewrite !length_app. unfold dict_update.
  rewrite (idemp_L (∪)). repeat split; lia.
Qed.

End MoreLabelerFacts.

(** ** More about registration *)

Section MoreRegistrationFacts.
Import BotLabeler.
Context `{Collaborators}.

Lemma get_custom_rules_items_Ok reg config items rules :
  get_custom_rules_items reg config items = Ok rules
  ↔ Forall2 (resolves reg config) items rules.
Proof.
  revert rules. induction items as [| [k v] items IH]; intros rules; simpl.
  - split.
    + intros Heq. injection Heq as <-. constructor.
    + intros Hall. by apply Forall2_nil_inv_l in Hall as ->.
  - unfold subscript. split.
    + intros Hres. destruct (reg !! k) as [cls |] eqn:Hk; simpl in Hres; [| done].
      destruct (construct cls config v) as [rule | e] eqn:Hc; simpl in Hres; [| done].
      destruct (get_custom_rules_items reg config items) as [rs | e] eqn:Hrest;
        simpl in Hres; [| done].
      injection Hres as <-. constructor; [by exists cls | by apply IH].
    + intros Hall. apply Forall2_cons_inv_l in Hall
        as (rule & rs & (cls & Hk & Hc) & Hrest & ->).
      simpl in Hk, Hc. rewrite Hk. simpl. rewrite Hc. simpl.
      apply IH in Hrest. by rewrite Hrest.
Qed.

Lemma get_custom_rules_items_first_unknown reg config pre rules k v post :
  get_custom_rules_items reg config pre = Ok rules →
  reg !! k = None →
  get_custom_rules_items reg config (pre ++ (k, v) :: post) = Raise (KeyError k).
Proof.
  revert rules. induction pre as [| [k' v'] pre IH]; intros rules Hpre Hk; simpl.
  - unfold subscript. by rewrite Hk.
  - simpl in Hpre. unfold subscript in *.
    destruct (reg !! k') as [cls |]; simpl in *; [| done].
    destruct (construct cls config v') as [rule | e]; simpl in *; [| done].
    destruct (get_custom_rules_items reg config pre) as [rs | e]; simpl in *;
      [| done].
    by rewrite (IH rs).
Qed.

(** X24.  [get_custom_rules] returns exactly when every keyword is a
    key of the registry and its constructor returns; the result then
    holds one rule per keyword, in the order of the keywords, each
    made from the class registered under the keyword.  When the
    keywords before an unknown one resolve, the exception is the
    [KeyError] of that keyword. *)
Theorem get_custom_rules_resolves (self : BotLabeler.t) (st : State)
    (custom_rules : list (string * Value)) :
  (∀ rules,
     get_custom_rules self st custom_rules = Ok rules
     ↔ Forall2 (resolves (custom_rules_dict self st) (rule_config self))
               custom_rules rules)
  ∧ (∀ rules, get_custom_rules self st custom_rules = Ok rules →
              length rules = length custom_rules)
  ∧ (∀ pre k v post rules,
       custom_rules = pre ++ (k, v) :: post →
       get_custom_rules self st pre = Ok rules →
       custom_rules_dict self st !! k = None →
       get_custom_rules self st custom_rules = Raise (KeyError k)).
Proof.
  split; [| split].
  - intros rules. apply get_custom_rules_items_Ok.
  - intros rules Hok. apply get_custom_rules_items_Ok in Hok.
    symmetry. by eapply Forall2_length.
  - intros pre k v post rules -> Hpre Hk.
    by eapply get_custom_rules_items_first_unknown.
Qed.

(** *** What a registration leaves alone *)

Lemma message_decorator_frame first rules blocking custom func self st :
  let self' := (message_decorator first rules blocking custom func self st).1 in
  handlers (message_view self) `prefix_of` handlers (message_view self')
  ∧ middlewares (message_view self') = middlewares (message_view self)
  ∧ raw_event_view self' = raw_event_view self.
Proof.
  unfold message_decorator.
  destruct (get_custom_rules self st custom) as [customs | e]; simpl.
  - split; [by eexists | done].
  - split; [by exists [] ; rewrite app_nil_r | done].
Qed.

Lemma raw_event_loop_frame events dataclass rules custom func st : ∀ self,
  let self' := (raw_event_loop events dataclass rules custom func self st).1 in
  message_view self' = message_view self
  ∧ raw_middlewares (raw_event_view self') = raw_middlewares (raw_event_view self)
  ∧ dom (raw_handlers (raw_event_view self))
      ⊆ dom (raw_handlers (raw_event_view self'))
  ∧ custom_rules self' = custom_rules self
  ∧ auto_rules self' = auto_rules self
  ∧ rule_config self' = rule_config self.
Proof.
  induction events as [| e events IH]; intros self; simpl; [done |].
  destruct (get_custom_rules self st custom) as [customs | ex]; simpl; [| done].
  match goal with
  | |- context [raw_event_loop events dataclass rules custom func ?s st] =>
      destruct (IH s) as (Hm & Hmw & Hdom & Hc & Ha & Hr)
  end.
  simpl in *. rewrite Hm, Hmw, Hc, Ha, Hr. repeat split; try done.
  etrans; [| exact Hdom]. apply dom_insert_subseteq.
Qed.

(** X25.  No call on a labeler removes or reorders what is registered:
    after any sequence of setter calls, registrations and loads, the
    message handlers and the middlewares it had are a prefix of the
    ones it has, and every raw event that had a handler still has one. *)
Theorem registered_handlers_stay (self : BotLabeler.t)
    (calls : list (State * call)) :
  handlers (message_view self)
    `prefix_of` handlers (message_view (after_calls self calls))
  ∧ middlewares (message_view self)
      `prefix_of` middlewares (message_view (after_calls self calls))
  ∧ raw_middlewares (raw_event_view self)
      `prefix_of` raw_middlewares (raw_event_view (after_calls self calls))
  ∧ dom (raw_handlers (raw_event_view self))
      ⊆ dom (raw_handlers (raw_event_view (after_calls self calls))).
Proof.
  revert self. induction calls as [| [st c] calls IH]; intros self; [done |].
  simpl. destruct (IH (after_call st self c)) as (Hh & Hm & Hrm & Hd).
  assert (handlers (message_view self)
            `prefix_of` handlers (message_view (after_call st self c))
          ∧ middlewares (message_view self)
              `prefix_of` middlewares (message_view (after_call st self c))
          ∧ raw_middlewares (raw_event_view self)
              `prefix_of` raw_middlewares (raw_event_view (after_call st self c))
          ∧ dom (raw_handlers (raw_event_view self))
              ⊆ dom (raw_handlers (raw_event_view (after_call st self c))))
    as (Hh1 & Hm1 & Hrm1 & Hd1).
  { destruct c; simpl; unfold message, chat_message, private_message.
    - unfold set_vbml_ignore_case, subscript.
      by destruct (rule_config self !! "vbml_flags") as [[f | p] |].
    - done.
    - done.
    - destruct (message_decorator_frame [] rules blocking custom_rules0 func self st)
        as (Hp & -> & ->). done.
    - destruct (message_decorator_frame
                  [{| rule_class := PeerRule; rule_arg := VBool true |}]
                  rules blocking custom_rules0 func self st) as (Hp & -> & ->).
      done.
    - destruct (message_decorator_frame
                  [{| rule_class := PeerRule; rule_arg := VBool false |}]
                  rules blocking custom_rules0 func self st) as (Hp & -> & ->).
      done.
    - unfold raw_event.
      match goal with
      | |- context [raw_event_loop ?es dataclass rules custom_rules0 func self st] =>
          destruct (raw_event_loop_frame es dataclass rules custom_rules0 func st self)
            as (-> & -> & Hdom & _)
      end.
      done.
    - repeat split; try (by eexists).
      unfold dict_update. rewrite dom_union. apply union_subseteq_r. }
  repeat split.
  - by etrans.
  - by etrans.
  - by etrans.
  - by etrans.
Qed.

(** *** [raw_event] *)

Lemma raw_event_loop_Ok events dataclass rules custom func st customs : ∀ self,
  get_custom_rules self st custom = Ok customs →
  let basement :=
    {| basement_dataclass := dataclass;
       basement_handler :=
         {| handler_func := func;
            handler_rules := (convert_shorten_filter <$> rules)
                               ++ auto_rules self ++ customs;
            handler_blocking := None |} |} in
  let out := raw_event_loop events dataclass rules custom func self st in
  out.2 = Ok func
  ∧ ∀ e : string,
      raw_handlers (raw_event_view out.1) !! e
      = if decide (e ∈ events) then Some basement
        else raw_handlers (raw_event_view self) !! e.
Proof.
  induction events as [| e0 events IH]; intros self Hok; simpl.
  - done.
  - rewrite Hok.
    match goal with
    | |- context [raw_event_loop events dataclass rules custom func ?s st] =>
        destruct (IH s) as [Hres Hlook]; [exact Hok |]
    end.
    simpl in *. split; [exact Hres |]. intros e. rewrite Hlook.
    destruct (decide (e ∈ events)) as [Hin | Hnin].
    + rewrite decide_True; [done | by right].
    + destruct (decide (e = e0)) as [-> | Hne].
      * rewrite decide_True by left. by rewrite lookup_insert_eq.
      * rewrite decide_False; [by rewrite lookup_insert_ne |].
        intros Hin. apply elem_of_cons in Hin as [? | ?]; done.
Qed.

(** X26.  When all its keywords resolve, a [raw_event] registration
    returns the function and puts one and the same handler under every
    event name it was given, in place of whatever handler the name
    had; the handlers of other event names and the message view are as
    before.  One event name and the list holding it alone are the same
    registration. *)
Theorem raw_event_registers_each_event (event : EventArg) (dataclass : DataClass)
    (rules : list ShortenRule) (custom_rules : list (string * Value))
    (func : Func) (self : BotLabeler.t) (st : State) (customs : list Rule) :
  get_custom_rules self st custom_rules = Ok customs →
  let basement :=
    {| basement_dataclass := dataclass;
       basement_handler :=
         {| handler_func := func;
            handler_rules := (convert_shorten_filter <$> rules)
                               ++ auto_rules self ++ customs;
            handler_blocking := None |} |} in
  let events := match event with EventStr e => [e] | EventList es => es end in
  let out := raw_event event dataclass rules custom_rules func self st in
  out.2 = Ok func
  ∧ (∀ e : string,
       raw_handlers (raw_event_view out.1) !! e
       = if decide (e ∈ events) then Some basement
         else raw_handlers (raw_event_view self) !! e)
  ∧ message_view out.1 = message_view self
  ∧ (∀ e, raw_event (EventStr e) dataclass rules custom_rules func self st
          = raw_event (EventList [e]) dataclass rules custom_rules func self st).
Proof.
  intros Hok basement events out.
  destruct (raw_event_loop_Ok events dataclass rules custom_rules func st customs
              self Hok) as [Hres Hlook].
  destruct (raw_event_loop_frame events dataclass rules custom_rules func st self)
    as (Hm & _).
  assert (out = raw_event_loop events dataclass rules custom_rules func self st)
    as -> by (unfold out, raw_event, events; by destruct event).
  done.
Qed.

End MoreRegistrationFacts.

(** ** More about the registry *)

Section RegistryFacts.
Import BotLabeler.

Lemma registry_init kw st :
  is_Some (heap st !! CUSTOM_RULES st) →
  registry (init kw st).2
  = dict_update (registry st) (default ∅ (kw_custom_rules kw)).
Proof.
  intros [d Hd]. unfold registry.
  change (CUSTOM_RULES (init kw st).2) with (CUSTOM_RULES st).
  by rewrite init_heap, Hd.
Qed.

Lemma registry_constructed kws : ∀ st,
  is_Some (heap st !! CUSTOM_RULES st) →
  dom (registry st) ⊆ dom (registry (constructed kws st))
  ∧ ∀ (k : string) c,
      registry st !! k = Some c →
      Forall (λ kw, default ∅ (kw_custom_rules kw) !! k = None) kws →
      registry (constructed kws st) !! k = Some c.
Proof.
  induction kws as [| kw kws IH]; intros st Hst; [done |].
  simpl. destruct (IH (init kw st).2 (init_allocated kw st Hst)) as [Hdom Hkeep].
  split.
  - etrans; [| exact Hdom]. rewrite registry_init by done.
    unfold dict_update. rewrite dom_union. apply union_subseteq_r.
  - intros k c Hk Hall. apply Forall_cons in Hall as [Hkw Hall].
    apply Hkeep; [| done]. rewrite registry_init by done.
    by rewrite dict_update_lookup, Hkw.
Qed.

(** X27.  The registry only grows.  However many labelers are
    constructed and whatever custom rules they are given, the twenty
    names of the module stay registered, a name once registered stays
    registered, and it keeps its class as long as no later constructor
    is given the same name. *)
Theorem registry_only_grows (before later : list Kwargs) :
  let st := constructed before module_loaded in
  let st' := constructed later st in
  dom CUSTOM_RULES_literal ⊆ dom (registry st)
  ∧ size (dom CUSTOM_RULES_literal) = 20%nat
  ∧ dom (registry st) ⊆ dom (registry st')
  ∧ ∀ (k : string) (c : RuleClass),
      registry st !! k = Some c →
      Forall (λ kw, default ∅ (kw_custom_rules kw) !! k = None) later →
      registry st' !! k = Some c.
Proof.
  intros st st'.
  assert (is_Some (heap module_loaded !! CUSTOM_RULES module_loaded)) as H0
    by by eexists.
  pose proof (constructed_allocated before module_loaded H0) as Hst.
  split; [| split; [by vm_compute |]].
  - apply (registry_constructed before module_loaded H0).
  - apply (registry_constructed later st Hst).
Qed.

End RegistryFacts.

(** *** Examples for the properties above *)

(** The poller of the example run is the one it started as. *)
Lemma listen_keeps_the_poller_witness :
  let w' := {| UserPolling.polls := [Ok UserPolling.Example.update];
               UserPolling.sessions := [];
               UserPolling.handled := [UserPolling.Example.timeout] |} in
  (UserPolling.listen 2 UserPolling.Example.poller UserPolling.Example.world).2
  = UserPolling.Looping UserPolling.Example.poller UserPolling.Example.s1 w'
  ∧ UserPolling._api UserPolling.Example.poller = true.
Proof.
  split; [reflexivity |].
  refine (proj1 (proj2 (listen_keeps_the_poller 2 UserPolling.Example.poller
                          UserPolling.Example.poller UserPolling.Example.world
                          {| UserPolling.polls := [Ok UserPolling.Example.update];
                             UserPolling.sessions := [];
                             UserPolling.handled := [UserPolling.Example.timeout] |}
                          UserPolling.Example.s1 _))).
  reflexivity.
Defined.

(** The third poll of the example run uses the second session. *)
Lemma listen_polls_with_current_session_witness :
  let trace :=
    (UserPolling.listen 6 UserPolling.Example.poller UserPolling.Example.world).1 in
  trace !! 5%nat
  = Some (UserPolling.GetEvent UserPolling.Example.s1 (Ok UserPolling.Example.update))
  ∧ UserPolling.session_after (take 5 trace) = Some UserPolling.Example.s1.
Proof.
  split; [reflexivity |].
  apply (listen_polls_with_current_session 6 UserPolling.Example.poller
           UserPolling.Example.world 5 UserPolling.Example.s1
           (Ok UserPolling.Example.update)).
  reflexivity.
Defined.


(** A raw-event registration with a keyword the registry knows. *)
Lemma raw_event_registers_each_event_witness :
  let custom_rules := [("text", BotLabeler.VStr "hi")] in
  let customs := [ {| BotLabeler.rule_class := BotLabeler.VBMLRule;
                      BotLabeler.rule_arg := BotLabeler.VStr "hi" |} ] in
  BotLabeler.get_custom_rules (H := BotLabeler.plain_collaborators)
    BotLabeler.Example.fresh BotLabeler.Example.st custom_rules = Ok customs
  ∧ (BotLabeler.raw_event (H := BotLabeler.plain_collaborators)
       (BotLabeler.EventList ["message_new"; "message_edit"]) "dict" []
       custom_rules "on_message" BotLabeler.Example.fresh BotLabeler.Example.st).2
    = Ok "on_message".
Proof.
  assert (BotLabeler.get_custom_rules (H := BotLabeler.plain_collaborators)
            BotLabeler.Example.fresh BotLabeler.Example.st
            [("text", BotLabeler.VStr "hi")]
          = Ok [ {| BotLabeler.rule_class := BotLabeler.VBMLRule;
                    BotLabeler.rule_arg := BotLabeler.VStr "hi" |} ]) as Hok
    by by vm_compute.
  split; [exact Hok |].
  exact (proj1 (raw_event_registers_each_event
                  (H := BotLabeler.plain_collaborators)
                  (BotLabeler.EventList ["message_new"; "message_edit"])
                  "dict" [] [("text", BotLabeler.VStr "hi")] "on_message"
                  BotLabeler.Example.fresh BotLabeler.Example.st _ Hok)).
Defined.
